(** * SpaceForge frontend: the SSE consumer [streamProcure] and the render
      poll of [DesignViewer]

    A shallow embedding of
    - [streamProcure] (frontend/src/api/client.ts, lines 70-126), the
      consumer of the procurement agent's [text/event-stream];
    - the [AgentStream] component's callbacks and its [stop] handler;
    - the polling effect of [DesignViewer] (lines 36-51).

    The asynchronous function is embedded as a function of what its awaited
    promises settle to: the outcome of [fetch] and the outcomes of the
    successive [reader.read()] calls.  What it does is observed as the
    ordered list of callbacks it invokes, together with the place where its
    body stands in the end.  A caller's [abort()] shows as the pending fetch
    or read rejecting with an [AbortError].  The callbacks are taken to
    return normally, as those of [AgentStream] do.

    The platform functions the code calls are embedded after their
    standards: [String.prototype.split], [startsWith], [slice] and [trim]
    and [JSON.parse] after ECMA-262 and ECMA-404, [TextDecoder] after the
    Encoding Standard, [Response.ok] after the Fetch Standard. *)

From Stdlib Require Import List PeanoNat NArith Bool Ascii String Lia Wf_nat.
From Stdlib.Strings Require Import Byte.
From Stdlib Require Import DecimalString.
Import ListNotations.
Open Scope N_scope.
Set Warnings "-register-all".

(** ** JavaScript strings

    A JavaScript string is a sequence of UTF-16 code units. *)

Definition codeunit := N.
Definition jsstring := list codeunit.

(** A literal of the source, written in ASCII. *)
Definition lit (s : string) : jsstring :=
  map (fun a => N_of_ascii a) (list_ascii_of_string s).

Fixpoint jsstring_eqb (a b : jsstring) : bool :=
  match a, b with
  | [], [] => true
  | x :: a', y :: b' => (x =? y) && jsstring_eqb a' b'
  | _, _ => false
  end.

Definition LF : codeunit := 10.

Module JsString.

(** [s.split("\n")]: the pieces between line feeds; never empty. *)
Fixpoint split (s : jsstring) : list jsstring :=
  match s with
  | [] => [[]]
  | c :: s' =>
      if c =? LF then [] :: split s'
      else match split s' with
           | piece :: pieces => (c :: piece) :: pieces
           | [] => [[c]]
           end
  end.

(** [a.pop()]: the last element ([undefined] on an empty array) and the
    array that is left. *)
Fixpoint pop {A : Type} (a : list A) : option A * list A :=
  match a with
  | [] => (None, [])
  | [x] => (Some x, [])
  | x :: a' => let (last, front) := pop a' in (last, x :: front)
  end.

(** [x ?? d] *)
Definition nullish {A : Type} (x : option A) (d : A) : A :=
  match x with Some v => v | None => d end.

(** [s.startsWith(p)] *)
Fixpoint startsWith (s p : jsstring) : bool :=
  match p, s with
  | [], _ => true
  | _ :: _, [] => false
  | y :: p', x :: s' => (x =? y) && startsWith s' p'
  end.

(** [s.slice(n)] for [0 <= n] *)
Definition slice (n : nat) (s : jsstring) : jsstring := skipn n s.

(** WhiteSpace and LineTerminator of ECMAScript, as [trim] strips them. *)
Definition is_white (c : codeunit) : bool :=
  (c =? 9) || (c =? 10) || (c =? 11) || (c =? 12) || (c =? 13) ||
  (c =? 32) || (c =? 160) || (c =? 5760) ||
  ((8192 <=? c) && (c <=? 8202)) ||
  (c =? 8232) || (c =? 8233) || (c =? 8239) || (c =? 8287) ||
  (c =? 12288) || (c =? 65279).

Fixpoint trimStart (s : jsstring) : jsstring :=
  match s with
  | c :: s' => if is_white c then trimStart s' else s
  | [] => []
  end.

Definition trimEnd (s : jsstring) : jsstring := rev (trimStart (rev s)).

(** [s.trim()] *)
Definition trim (s : jsstring) : jsstring := trimEnd (trimStart s).

End JsString.

(** ** [TextDecoder]

    [new TextDecoder()] is the UTF-8 decoder of the Encoding Standard, not
    fatal, with the byte order mark stripped; [streamProcure] only ever calls
    [decode(value, { stream: true })], so the decoder is never flushed and
    carries its state from one chunk to the next. *)

Module TextDecoder.

Record t := mk {
  code_point : N;
  bytes_seen : N;
  bytes_needed : N;
  lower_boundary : N;
  upper_boundary : N;
  bom_seen : bool
}.

Definition init : t := mk 0 0 0 128 191 false.

(** The decoder back in its initial state, the mark flag kept. *)
Definition reset (d : t) : t := mk 0 0 0 128 191 (bom_seen d).

(** A scalar value as UTF-16 code units. *)
Definition code_units (cp : N) : jsstring :=
  if cp <? 65536 then [cp]
  else [55296 + N.shiftr (cp - 65536) 10; 56320 + N.land (cp - 65536) 1023].

(** Serialising a decoded scalar value: a leading U+FEFF is dropped. *)
Definition emit (d : t) (cp : N) : t * jsstring :=
  if bom_seen d then (d, code_units cp)
  else
    let d' := mk (code_point d) (bytes_seen d) (bytes_needed d)
                 (lower_boundary d) (upper_boundary d) true in
    if cp =? 65279 then (d', []) else (d', code_units cp).

Definition REPLACEMENT : N := 65533.

(** The handler on a byte when no sequence is open. *)
Definition lead (d : t) (b : N) : t * jsstring :=
  if b <=? 127 then emit d b
  else if (194 <=? b) && (b <=? 223) then
    (mk (N.land b 31) 0 1 128 191 (bom_seen d), [])
  else if (224 <=? b) && (b <=? 239) then
    (mk (N.land b 15) 0 2
        (if b =? 224 then 160 else 128)
        (if b =? 237 then 159 else 191) (bom_seen d), [])
  else if (240 <=? b) && (b <=? 244) then
    (mk (N.land b 7) 0 3
        (if b =? 240 then 144 else 128)
        (if b =? 244 then 143 else 191) (bom_seen d), [])
  else emit d REPLACEMENT.

(** The handler on one byte.  A byte outside the boundaries of an open
    sequence ends it with U+FFFD and is handled again as a first byte. *)
Definition handler (d : t) (b : N) : t * jsstring :=
  if bytes_needed d =? 0 then lead d b
  else if (b <? lower_boundary d) || (upper_boundary d <? b) then
    let (d1, out1) := emit (reset d) REPLACEMENT in
    let (d2, out2) := lead d1 b in
    (d2, out1 ++ out2)
  else
    let cp := N.lor (N.shiftl (code_point d) 6) (N.land b 63) in
    let seen := bytes_seen d + 1 in
    if seen =? bytes_needed d then emit (reset d) cp
    else (mk cp seen (bytes_needed d) 128 191 (bom_seen d), []).

(** [decoder.decode(value, { stream: true })] *)
Fixpoint decode (d : t) (value : list byte) : t * jsstring :=
  match value with
  | [] => (d, [])
  | b :: value' =>
      let (d1, out1) := handler d (Byte.to_N b) in
      let (d2, out2) := decode d1 value' in
      (d2, out1 ++ out2)
  end.

End TextDecoder.

(** What holds of the decoder between any two bytes: within an open
    sequence the bits gathered so far are not all zero, unless the first
    byte has raised the lower boundary. *)
Definition decoding (d : TextDecoder.t) : Prop :=
  TextDecoder.upper_boundary d <= 191 /\
  (TextDecoder.bytes_needed d = 0 \/ 1 <= TextDecoder.code_point d \/
   144 <= TextDecoder.lower_boundary d).

(** Bytes of an ASCII text, with ['] standing for the double quote, to write
    wire data down. *)
Definition wire (s : string) : list byte :=
  map (fun b => if Byte.eqb b "'"%byte then x22 else b) (list_byte_of_string s).

Definition text (s : string) : jsstring := map Byte.to_N (wire s).

(** ** [JSON.parse]

    The values [JSON.parse] builds and the grammar it accepts (ECMA-404).  A
    number is kept as its lexeme: the double it denotes is a function of the
    lexeme, and nothing here computes with it.  An object keeps its members
    as written; the last one of a repeated name is the property's value. *)

Module JSON.

Inductive value :=
| JNull
| JBool (b : bool)
| JNumber (lexeme : jsstring)
| JString (s : jsstring)
| JArray (elements : list value)
| JObject (members : list (jsstring * value)).

Fixpoint ws (s : jsstring) : jsstring :=
  match s with
  | c :: s' =>
      if (c =? 9) || (c =? 10) || (c =? 13) || (c =? 32) then ws s' else s
  | [] => []
  end.

Definition hex (c : codeunit) : option N :=
  if (48 <=? c) && (c <=? 57) then Some (c - 48)
  else if (65 <=? c) && (c <=? 70) then Some (c - 55)
  else if (97 <=? c) && (c <=? 102) then Some (c - 87)
  else None.

Definition hex4 (a b c d : codeunit) : option codeunit :=
  match hex a, hex b, hex c, hex d with
  | Some x, Some y, Some z, Some w => Some (((x * 16 + y) * 16 + z) * 16 + w)
  | _, _, _, _ => None
  end.

Definition escape (c : codeunit) : option codeunit :=
  if c =? 34 then Some 34          (* quotation mark *)
  else if c =? 92 then Some 92     (* reverse solidus *)
  else if c =? 47 then Some 47     (* solidus *)
  else if c =? 98 then Some 8      (* b: backspace *)
  else if c =? 102 then Some 12    (* f: form feed *)
  else if c =? 110 then Some 10    (* n: line feed *)
  else if c =? 114 then Some 13    (* r: carriage return *)
  else if c =? 116 then Some 9     (* t: tab *)
  else None.

Definition cons_to {A : Type} (c : codeunit) (r : option (jsstring * A))
  : option (jsstring * A) :=
  match r with Some (s, rest) => Some (c :: s, rest) | None => None end.

(** The characters of a string after its opening quote, and what follows
    the closing one. *)
Fixpoint chars (s : jsstring) : option (jsstring * jsstring) :=
  match s with
  | [] => None
  | c :: s1 =>
      if c =? 34 then Some ([], s1)
      else if c =? 92 then
        match s1 with
        | [] => None
        | e :: s2 =>
            if e =? 117 then
              match s2 with
              | h1 :: h2 :: h3 :: h4 :: s3 =>
                  match hex4 h1 h2 h3 h4 with
                  | Some u => cons_to u (chars s3)
                  | None => None
                  end
              | _ => None
              end
            else
              match escape e with
              | Some u => cons_to u (chars s2)
              | None => None
              end
        end
      else if c <? 32 then None
      else cons_to c (chars s1)
  end.

Definition is_digit (c : codeunit) : bool := (48 <=? c) && (c <=? 57).

Fixpoint digits (s : jsstring) : jsstring * jsstring :=
  match s with
  | c :: s' =>
      if is_digit c then let (ds, rest) := digits s' in (c :: ds, rest)
      else ([], s)
  | [] => ([], [])
  end.

Definition int_part (s : jsstring) : option (jsstring * jsstring) :=
  match s with
  | c :: s' =>
      if c =? 48 then Some ([c], s')
      else if is_digit c then Some (digits s)
      else None
  | [] => None
  end.

Definition frac_part (s : jsstring) : option (jsstring * jsstring) :=
  match s with
  | c :: s' =>
      if c =? 46 then
        match digits s' with
        | ([], _) => None
        | (ds, rest) => Some (c :: ds, rest)
        end
      else Some ([], s)
  | [] => Some ([], [])
  end.

Definition exp_digits (pre s : jsstring) : option (jsstring * jsstring) :=
  match digits s with
  | ([], _) => None
  | (ds, rest) => Some (pre ++ ds, rest)
  end.

Definition exp_part (s : jsstring) : option (jsstring * jsstring) :=
  match s with
  | c :: s' =>
      if (c =? 101) || (c =? 69) then
        match s' with
        | g :: s'' =>
            if (g =? 43) || (g =? 45) then exp_digits [c; g] s''
            else exp_digits [c] s'
        | [] => None
        end
      else Some ([], s)
  | [] => Some ([], [])
  end.

Definition unsigned_number (s : jsstring) : option (jsstring * jsstring) :=
  match int_part s with
  | Some (i, s1) =>
      match frac_part s1 with
      | Some (f, s2) =>
          match exp_part s2 with
          | Some (e, s3) => Some (i ++ f ++ e, s3)
          | None => None
          end
      | None => None
      end
  | None => None
  end.

Definition number (s : jsstring) : option (jsstring * jsstring) :=
  match s with
  | c :: s' => if c =? 45 then cons_to c (unsigned_number s')
               else unsigned_number s
  | [] => None
  end.

Definition keyword (s : jsstring) : option (value * jsstring) :=
  if JsString.startsWith s (lit "null") then Some (JNull, skipn 4 s)
  else if JsString.startsWith s (lit "true") then Some (JBool true, skipn 4 s)
  else if JsString.startsWith s (lit "false") then Some (JBool false, skipn 5 s)
  else None.

(** A value at the head of [s]; [elements] and [members] read what follows
    an opening bracket or brace up to the closing one. *)
Fixpoint parse_value (fuel : nat) (s : jsstring) : option (value * jsstring) :=
  match fuel with
  | O => None
  | S fuel' =>
      match s with
      | [] => None
      | c :: s1 =>
          if c =? 123 then
            match ws s1 with
            | d :: s2 =>
                if d =? 125 then Some (JObject [], s2)
                else match members fuel' (d :: s2) with
                     | Some (ms, rest) => Some (JObject ms, rest)
                     | None => None
                     end
            | [] => None
            end
          else if c =? 91 then
            match ws s1 with
            | d :: s2 =>
                if d =? 93 then Some (JArray [], s2)
                else match elements fuel' (d :: s2) with
                     | Some (vs, rest) => Some (JArray vs, rest)
                     | None => None
                     end
            | [] => None
            end
          else if c =? 34 then
            match chars s1 with
            | Some (str, rest) => Some (JString str, rest)
            | None => None
            end
          else if (c =? 45) || is_digit c then
            match number s with
            | Some (lexeme, rest) => Some (JNumber lexeme, rest)
            | None => None
            end
          else keyword s
      end
  end
with elements (fuel : nat) (s : jsstring) : option (list value * jsstring) :=
  match fuel with
  | O => None
  | S fuel' =>
      match parse_value fuel' (ws s) with
      | Some (v, s1) =>
          match ws s1 with
          | c :: s2 =>
              if c =? 44 then
                match elements fuel' s2 with
                | Some (vs, rest) => Some (v :: vs, rest)
                | None => None
                end
              else if c =? 93 then Some ([v], s2)
              else None
          | [] => None
          end
      | None => None
      end
  end
with members (fuel : nat) (s : jsstring)
  : option (list (jsstring * value) * jsstring) :=
  match fuel with
  | O => None
  | S fuel' =>
      match ws s with
      | q :: s1 =>
          if q =? 34 then
            match chars s1 with
            | Some (name, s2) =>
                match ws s2 with
                | colon :: s3 =>
                    if colon =? 58 then
                      match parse_value fuel' (ws s3) with
                      | Some (v, s4) =>
                          match ws s4 with
                          | c :: s5 =>
                              if c =? 44 then
                                match members fuel' s5 with
                                | Some (ms, rest) => Some ((name, v) :: ms, rest)
                                | None => None
                                end
                              else if c =? 125 then Some ([(name, v)], s5)
                              else None
                          | [] => None
                          end
                      | None => None
                      end
                    else None
                | [] => None
                end
            | None => None
            end
          else None
      | [] => None
      end
  end.

(** [JSON.parse(text)]: [None] is the [SyntaxError] it throws. *)
Definition parse (s : jsstring) : option value :=
  match parse_value (S (2 * List.length s)) (ws s) with
  | Some (v, rest) => match ws rest with [] => Some v | _ :: _ => None end
  | None => None
  end.

(** The value of the own property [name] of an object. *)
Fixpoint lookup (name : jsstring) (ms : list (jsstring * value)) : option value :=
  match ms with
  | [] => None
  | (k, v) :: ms' =>
      match lookup name ms' with
      | Some v' => Some v'
      | None => if jsstring_eqb k name then Some v else None
      end
  end.

End JSON.
Import JSON.

(** ** What the awaited promises settle to *)

(** An [Error] object, as far as the code looks at it. *)
Record error := Error { name : string; message : string }.

(** A thrown value is an instance of [Error] or it is not. *)
Inductive thrown :=
| Thrown (e : error)
| NotAnError.

(** The [DOMException] a fetch or a read rejects with once the caller has
    called [abort()] on the returned controller; it is an instance of
    [Error]. *)
Definition AbortError (msg : string) : thrown := Thrown (Error "AbortError" msg).

(** One settled [reader.read()]: [{ done: false, value }], [{ done: true }] or
    a rejection. *)
Inductive read_result :=
| Value (value : list byte)
| Done
| Rejected (e : thrown).

(** The response: its status, and the successive results of reading its body
    ([None] is the [null] body).  A read past the end of the list has not
    settled. *)
Record Response := { status : N; body : option (list read_result) }.

(** [res.ok]: the status is in the range 200 to 299 (Fetch Standard). *)
Definition ok (res : Response) : bool := (200 <=? status res) && (status res <=? 299).

Inductive fetch_result :=
| Pending
| Resolved (res : Response)
| Failed (e : thrown).

(** ** [streamProcure] *)

Inductive callback :=
| onEvent (parsed : JSON.value)
| onDone
| onError (err : error).

(** Where the asynchronous body stands once the given promises are used up. *)
Inductive exit :=
| AwaitingFetch      (* line 81, not settled *)
| AwaitingRead       (* line 95, not settled *)
| ReturnedOnDone     (* line 110 *)
| EndOfStream        (* line 119 *)
| Caught.            (* line 121 *)

Definition run := (list callback * exit)%type.

(** [r], after the callbacks [cbs]. *)
Definition after (cbs : list callback) (r : run) : run := (cbs ++ fst r, snd r).

(** Line 121: [if (e instanceof Error && e.name !== "AbortError") onError(e)] *)
Definition catch (e : thrown) : run :=
  match e with
  | Thrown err =>
      if String.eqb (name err) "AbortError" then ([], Caught)
      else ([onError err], Caught)
  | NotAnError => ([], Caught)
  end.

(** [parsed.event]: [None] is the [TypeError] of reading a property of
    [null], [Some None] is [undefined]. *)
Definition get_event (parsed : JSON.value) : option (option JSON.value) :=
  match parsed with
  | JNull => None
  | JObject ms => Some (JSON.lookup (lit "event") ms)
  | _ => Some None
  end.

(** [x === "..."] *)
Definition strict_eq (x : option JSON.value) (s : jsstring) : bool :=
  match x with
  | Some (JString t) => jsstring_eqb t s
  | _ => false
  end.

(** What the body of the [for] loop (lines 103-116) does with one line. *)
Inductive line_result :=
| Skip
| Emit (parsed : JSON.value)
| Stop.

Definition on_line (line : jsstring) : line_result :=
  if JsString.startsWith line (lit "data: ") then
    match JsString.trim (JsString.slice 6 line) with
    | [] => Skip                               (* if (!raw) continue *)
    | raw =>
        match JSON.parse raw with
        | None => Skip                         (* SyntaxError, caught *)
        | Some parsed =>
            match get_event parsed with
            | None => Skip                     (* TypeError, caught *)
            | Some ev =>
                if strict_eq ev (lit "done") then Stop else Emit parsed
            end
        end
    end
  else Skip.

(** The [for] loop of lines 102-117: the callbacks it makes, and whether it
    left through the [return] of line 110. *)
Fixpoint for_lines (lines : list jsstring) : list callback * bool :=
  match lines with
  | [] => ([], false)
  | line :: lines' =>
      match on_line line with
      | Stop => ([onDone], true)
      | Emit parsed => let (cbs, returned) := for_lines lines' in
                       (onEvent parsed :: cbs, returned)
      | Skip => for_lines lines'
      end
  end.

(** The [while] loop of lines 94-118 and the [onDone()] of line 119. *)
Fixpoint read_loop (decoder : TextDecoder.t) (buffer : jsstring)
                   (reads : list read_result) : run :=
  match reads with
  | [] => ([], AwaitingRead)
  | Rejected e :: _ => catch e
  | Done :: _ => ([onDone], EndOfStream)
  | Value value :: reads' =>
      let (decoder', decoded) := TextDecoder.decode decoder value in
      let lines := JsString.split (buffer ++ decoded) in
      let (last, lines') := JsString.pop lines in
      let buffer' := JsString.nullish last [] in
      let (cbs, returned) := for_lines lines' in
      if returned then (cbs, ReturnedOnDone)
      else after cbs (read_loop decoder' buffer' reads')
  end.

(** [`SSE error: ${res.status}`] *)
Definition sse_error (res : Response) : error :=
  Error "Error" ("SSE error: " ++ NilEmpty.string_of_uint (N.to_uint (status res))).

(** The asynchronous body of [streamProcure], lines 79-123.  The design id
    and the budget only go into the request. *)
Definition streamProcure (fetched : fetch_result) : run :=
  match fetched with
  | Pending => ([], AwaitingFetch)
  | Failed e => catch e
  | Resolved res =>
      match ok res, body res with
      | true, Some reads => read_loop TextDecoder.init [] reads
      | _, _ => catch (Thrown (sse_error res))
      end
  end.

Definition callbacks (r : run) : list callback := fst r.

(** A response of status [st] whose body reads as [reads]. *)
Definition response (st : N) (reads : list read_result) : fetch_result :=
  Resolved {| status := st; body := Some reads |}.

(** ** Frames, as the loop tells them apart *)

(** The marker of line 103 and the payload of line 104. *)
Definition marker (line : jsstring) : bool := JsString.startsWith line (lit "data: ").
Definition payload (line : jsstring) : jsstring := JsString.trim (JsString.slice 6 line).

(** [parsed.event === "done"], where it evaluates. *)
Definition is_done (parsed : JSON.value) : bool :=
  match get_event parsed with
  | Some ev => strict_eq ev (lit "done")
  | None => false
  end.

(** What [onEvent] may be handed: a value that is not [null] and whose
    [event] is not ["done"]. *)
Definition deliverable (cb : callback) : Prop :=
  match cb with
  | onEvent parsed => is_done parsed = false /\ parsed <> JNull
  | onDone | onError _ => True
  end.

(** A line of the stream holds no line feed. *)
Definition is_line (l : jsstring) : Prop := ~ In LF l.

(** A marker line whose payload is JSON for an event other than [done]. *)
Definition event_frame (line : jsstring) (parsed : JSON.value) : Prop :=
  marker line = true /\ JSON.parse (payload line) = Some parsed /\
  parsed <> JNull /\ is_done parsed = false.

(** A marker line whose payload is JSON with [event] equal to ["done"]. *)
Definition done_frame (line : jsstring) : Prop :=
  marker line = true /\
  exists parsed, JSON.parse (payload line) = Some parsed /\ is_done parsed = true.

(** A line that is no frame: it lacks the marker, or its payload is not
    JSON, or it is the JSON [null]. *)
Definition malformed (line : jsstring) : Prop :=
  marker line = false \/ JSON.parse (payload line) = None \/
  JSON.parse (payload line) = Some JNull.

(** Lines, each followed by its line feed. *)
Definition unlines (ls : list jsstring) : jsstring :=
  List.concat (map (fun l => l ++ [LF]) ls).

(** The text a fresh decoder makes of a byte stream. *)
Definition decoded (bytes : list byte) : jsstring :=
  snd (TextDecoder.decode TextDecoder.init bytes).

(** ** The [AgentStream] component

    The state the component keeps, the three callbacks it hands to
    [streamProcure] (lines 25-30) and its [stop] handler (lines 34-37). *)

Module AgentStream.

Record state := { events : list JSON.value; running : bool; done : bool }.

(** [start], lines 18-20 *)
Definition start : state := {| events := []; running := true; done := false |}.

(** [{ event: "error", data: err.message }] *)
Definition error_event (err : error) : JSON.value :=
  JObject [(lit "event", JString (lit "error"));
           (lit "data", JString (lit (message err)))].

Definition deliver (s : state) (cb : callback) : state :=
  match cb with
  | onEvent ev =>
      {| events := events s ++ [ev]; running := running s; done := done s |}
  | onDone =>
      {| events := events s; running := false; done := true |}
  | onError err =>
      {| events := events s ++ [error_event err]; running := false; done := done s |}
  end.

Definition deliver_all (s : state) (cbs : list callback) : state :=
  fold_left deliver cbs s.

(** [stop]: [ctrlRef.current?.abort(); setRunning(false)] *)
Definition stop (s : state) : state :=
  {| events := events s; running := false; done := done s |}.

End AgentStream.

(** ** The render poll of [DesignViewer]

    The effect of lines 36-51 on the two pieces of state it depends on.  Of a
    job snapshot only the id and the status are looked at. *)

Module DesignViewer.

Inductive job_status := pending | processing | done | failed.

Record RenderJobResponse := { job_id : string; status : job_status }.

Record state := { polling : bool; renderJob : option RenderJobResponse }.

Inductive effect_result :=
| Nothing                      (* the return of line 37 *)
| StopPolling                  (* setPolling(false), line 39 *)
| Schedule (id : string).      (* setTimeout of line 42, to poll job [id] *)

Definition terminal (j : RenderJobResponse) : bool :=
  match status j with
  | done | failed => true
  | pending | processing => false
  end.

Definition effect (s : state) : effect_result :=
  match polling s, renderJob s with
  | true, Some job => if terminal job then StopPolling else Schedule (job_id job)
  | _, _ => Nothing
  end.

(** What [getRenderStatus] settles to in the timer's callback. *)
Inductive reply :=
| Snapshot (updated : RenderJobResponse)
| RequestFailed.

(** Lines 43-48 *)
Definition timer (s : state) (r : reply) : state :=
  match r with
  | Snapshot updated => {| polling := polling s; renderJob := Some updated |}
  | RequestFailed => {| polling := false; renderJob := renderJob s |}
  end.

(** [startRender], lines 28-29 *)
Definition started (job : RenderJobResponse) : state :=
  {| polling := true; renderJob := Some job |}.

(** The effect, run after every change of its dependencies: the status
    requests it schedules, in order, and the state it comes to rest in
    (or waits in, once the replies are used up). *)
Fixpoint poll (s : state) (replies : list reply) : list string * state :=
  match effect s with
  | Nothing => ([], s)
  | StopPolling => ([], {| polling := false; renderJob := renderJob s |})
  | Schedule id =>
      match replies with
      | [] => ([id], s)
      | r :: replies' =>
          let (ids, s') := poll (timer s r) replies' in (id :: ids, s')
      end
  end.

End DesignViewer.

(** ** Scenarios *)

Definition frame (s : string) : list byte := wire s ++ [x0a; x0a].

Definition thought : list byte := frame "data: {'event': 'thought', 'data': 'Checking budget'}".
Definition action : list byte := frame "data: {'event': 'action', 'data': 'search'}".
Definition summary : list byte := frame "data: {'event': 'summary', 'data': {'total': 120}}".
Definition finished : list byte := frame "data: {'event': 'done', 'data': null}".

Definition parsed_of (s : string) : JSON.value :=
  match JSON.parse (text s) with Some v => v | None => JNull end.

Definition thought_event : JSON.value := parsed_of "{'event': 'thought', 'data': 'Checking budget'}".
Definition action_event : JSON.value := parsed_of "{'event': 'action', 'data': 'search'}".
Definition summary_event : JSON.value := parsed_of "{'event': 'summary', 'data': {'total': 120}}".

(** Scenario D: one [thought] frame is read, then the caller aborts while the
    next read is pending. *)
Definition scenario_D : fetch_result :=
  response 200 [Value thought; Rejected (AbortError "The user aborted a request.")].


(** ** An abort made from inside a callback

    [ctrl.abort(reason)] called by the caller while its [n]-th callback is
    running ([n] counted from 1, over the callbacks still to come).  The
    loop over the lines of the chunk in hand does not test the signal
    (lines 102-117), so it goes on to the end of the chunk; the stream is
    errored with the reason, and the next [reader.read()] rejects with it,
    whatever the transport holds.  With no reason given the reason is the
    [AbortError]. *)

Fixpoint read_loop_aborting (reason : thrown) (n : nat)
                            (decoder : TextDecoder.t) (buffer : jsstring)
                            (reads : list read_result) : run :=
  match n with
  | O => catch reason
  | S _ =>
      match reads with
      | [] => ([], AwaitingRead)
      | Rejected e :: _ => catch e
      | Done :: _ => ([onDone], EndOfStream)
      | Value value :: reads' =>
          let (decoder', decoded) := TextDecoder.decode decoder value in
          let lines := JsString.split (buffer ++ decoded) in
          let (last, lines') := JsString.pop lines in
          let buffer' := JsString.nullish last [] in
          let (cbs, returned) := for_lines lines' in
          if returned then (cbs, ReturnedOnDone)
          else after cbs
                 (read_loop_aborting reason (n - List.length cbs)
                                     decoder' buffer' reads')
      end
  end.

(** [streamProcure], with the caller aborting inside its [n]-th callback. *)
Definition streamProcure_aborting (reason : thrown) (n : nat)
                                  (fetched : fetch_result) : run :=
  match fetched with
  | Pending => ([], AwaitingFetch)
  | Failed e => catch e
  | Resolved res =>
      match ok res, body res with
      | true, Some reads => read_loop_aborting reason n TextDecoder.init [] reads
      | _, _ => catch (Thrown (sse_error res))
      end
  end.

(** ** Streams as written on the wire *)

Definition CR : codeunit := 13.

(** Lines, each followed by a carriage return and a line feed. *)
Definition crlf_unlines (ls : list jsstring) : jsstring :=
  List.concat (map (fun l => l ++ [CR; LF]) ls).

(** Frames as the server writes them: each marker line is followed by a blank
    line. *)
Definition framed (ls : list jsstring) : list jsstring :=
  List.concat (map (fun l => [l; []]) ls).

(** ** Values tested for truth *)

(** A string is truthy when it is not empty. *)
Definition truthy (s : string) : bool :=
  match s with EmptyString => false | String _ _ => true end.

(** [e instanceof Error ? e.message : fallback] *)
Definition message_or (e : thrown) (fallback : string) : string :=
  match e with
  | Thrown err => message err
  | NotAnError => fallback
  end.

(** A number that is only handed on is kept as its lexeme, as in [JSON]. *)
Definition number := jsstring.

(** ** [JSON.stringify] of the request bodies

    [submitRender] and [generateDesign] stringify an object literal whose
    values are strings (and, for the preferences [Home] leaves out, the
    empty object). *)

Module Stringify.

Definition hex_digit (d : N) : codeunit := if d <? 10 then 48 + d else 87 + d.

(** [\uXXXX], in lower case *)
Definition unicode_escape (c : codeunit) : jsstring :=
  [92; 117; hex_digit (c / 4096 mod 16); hex_digit (c / 256 mod 16);
   hex_digit (c / 16 mod 16); hex_digit (c mod 16)].

Definition is_high (c : codeunit) : bool := (55296 <=? c) && (c <=? 56319).
Definition is_low (c : codeunit) : bool := (56320 <=? c) && (c <=? 57343).

(** One code unit that is not half of a surrogate pair. *)
Definition quote_unit (c : codeunit) : jsstring :=
  if c =? 8 then [92; 98]
  else if c =? 9 then [92; 116]
  else if c =? 10 then [92; 110]
  else if c =? 12 then [92; 102]
  else if c =? 13 then [92; 114]
  else if c =? 34 then [92; 34]
  else if c =? 92 then [92; 92]
  else if (c <? 32) || is_high c || is_low c then unicode_escape c
  else [c].

(** The characters of QuoteJSONString between the quotes: a surrogate pair
    is one code point and is copied; a lone surrogate is escaped. *)
Fixpoint quote_chars (s : jsstring) : jsstring :=
  match s with
  | [] => []
  | c :: s1 =>
      match s1 with
      | d :: s2 =>
          if is_high c && is_low d then c :: d :: quote_chars s2
          else quote_unit c ++ quote_chars s1
      | [] => quote_unit c
      end
  end.

(** QuoteJSONString *)
Definition quote (s : jsstring) : jsstring := [34] ++ quote_chars s ++ [34].

(** [JSON.stringify({ design_id: designId })], line 54 *)
Definition submitRender_body (designId : jsstring) : jsstring :=
  lit "{" ++ quote (lit "design_id") ++ lit ":" ++ quote designId ++ lit "}".

(** [JSON.stringify({ room_id: roomId, style, preferences })], line 46, with
    the default [preferences = {}]. *)
Definition generateDesign_body (roomId style : jsstring) : jsstring :=
  lit "{" ++ quote (lit "room_id") ++ lit ":" ++ quote roomId ++ lit "," ++
  quote (lit "style") ++ lit ":" ++ quote style ++ lit "," ++
  quote (lit "preferences") ++ lit ":" ++ lit "{}" ++ lit "}".

End Stringify.

(** ** [ThreeScene]: the colour of a furniture box

    [piece.color || colorPalette[idx % colorPalette.length] || "#7c6ef0"],
    line 64.  With an empty palette the index is [NaN] and the entry
    [undefined]. *)

Module ThreeScene.

Definition default_color : string := "#7c6ef0".

Definition palette_entry (colorPalette : list string) (idx : nat) : option string :=
  match List.length colorPalette with
  | O => None
  | S n => nth_error colorPalette (Nat.modulo idx (S n))
  end.

Definition box_color (color : string) (colorPalette : list string) (idx : nat) : string :=
  if truthy color then color
  else match palette_entry colorPalette idx with
       | Some c => if truthy c then c else default_color
       | None => default_color
       end.

(** The colours of [furniture.map((piece, idx) => ...)], from index [idx]. *)
Fixpoint box_colors (colors : list string) (colorPalette : list string) (idx : nat)
  : list string :=
  match colors with
  | [] => []
  | color :: colors' =>
      box_color color colorPalette idx :: box_colors colors' colorPalette (S idx)
  end.

End ThreeScene.

(** ** [ARPage]

    The effect of lines 44-50 and the three branches of the render,
    lines 52-68. *)

Module ARPage.

Section Page.

(** The session is only handed to the view. *)
Variable ARSessionResponse : Type.

Record state := {
  session : option ARSessionResponse;
  error : option string;
  loading : bool
}.

Definition initial : state := {| session := None; error := None; loading := true |}.

(** What [getARSession] settles to. *)
Inductive outcome :=
| Resolved (s : ARSessionResponse)
| Rejected (e : thrown).

(** The effect, once the request has settled; [designId] is the route
    parameter, [None] when it is [undefined]. *)
Definition effect (designId : option string) (o : outcome) : state :=
  match designId with
  | None => initial
  | Some id =>
      if truthy id then
        match o with
        | Resolved s => {| session := Some s; error := None; loading := false |}
        | Rejected e =>
            {| session := None;
               error := Some (message_or e "Failed to load AR session");
               loading := false |}
        end
      else initial
  end.

Inductive view :=
| Spinner
| ErrorMessage (msg : string)
| Viewer (s : ARSessionResponse).

(** [error || "Session not found"] *)
Definition error_text (error : option string) : string :=
  match error with
  | Some msg => if truthy msg then msg else "Session not found"
  | None => "Session not found"
  end.

Definition render (s : state) : view :=
  if loading s then Spinner
  else
    match error s, session s with
    | Some msg, Some sess =>
        if truthy msg then ErrorMessage (error_text (error s)) else Viewer sess
    | None, Some sess => Viewer sess
    | _, None => ErrorMessage (error_text (error s))
    end.

End Page.

Arguments initial {ARSessionResponse}.
Arguments Resolved {ARSessionResponse} s.
Arguments Rejected {ARSessionResponse} e.
Arguments effect {ARSessionResponse} designId o.
Arguments Spinner {ARSessionResponse}.
Arguments ErrorMessage {ARSessionResponse} msg.
Arguments Viewer {ARSessionResponse} s.
Arguments render {ARSessionResponse} s.

End ARPage.

(** ** [Home]

    The state of the page, its two handlers and the props it hands to
    [DesignViewer] (lines 93-97).  [handleGenerate] runs up to its [await]
    on a click and goes on when [generateDesign] has settled; the button is
    there once a room is analyzed and is disabled while [generating]. *)

Module Home.

Record RoomAnalyzeResponse := { room_id : string; width : number; depth : number }.

Record DesignGenerateResponse := { design_id : string; style : string }.

Record state := {
  analysis : option RoomAnalyzeResponse;
  design : option DesignGenerateResponse;
  generating : bool;
  genError : option string;
  selectedStyle : string
}.

Definition initial : state :=
  {| analysis := None; design := None; generating := false; genError := None;
     selectedStyle := "modern" |}.

(** A call [generateDesign(room_id, style)] that has not settled. *)
Definition request := (string * string)%type.

Inductive outcome :=
| Resolved (d : DesignGenerateResponse)
| Rejected (e : thrown).

Inductive event :=
| Analyzed (result : RoomAnalyzeResponse)   (* RoomUploader calls onAnalyzed *)
| SelectStyle (s : string)
| Click                                     (* on the Generate button *)
| Settled (o : outcome).                    (* the oldest pending call settles *)

(** Lines 16-19 *)
Definition handleAnalyzed (s : state) (result : RoomAnalyzeResponse) : state :=
  {| analysis := Some result; design := None; generating := generating s;
     genError := genError s; selectedStyle := selectedStyle s |}.

(** Lines 22-26, up to the [await]: the state, and the call made. *)
Definition handleGenerate (s : state) : state * option request :=
  match analysis s with
  | None => (s, None)
  | Some a =>
      ({| analysis := analysis s; design := design s; generating := true;
          genError := None; selectedStyle := selectedStyle s |},
       Some (room_id a, selectedStyle s))
  end.

(** Lines 27-32, after the [await] *)
Definition settled (s : state) (o : outcome) : state :=
  match o with
  | Resolved d =>
      {| analysis := analysis s; design := Some d; generating := false;
         genError := genError s; selectedStyle := selectedStyle s |}
  | Rejected e =>
      {| analysis := analysis s; design := design s; generating := false;
         genError := Some (message_or e "Generation failed");
         selectedStyle := selectedStyle s |}
  end.

(** The page and the calls of [generateDesign] that have not settled. *)
Record page := { ui : state; pending : list request }.

Definition step (p : page) (ev : event) : page :=
  match ev with
  | Analyzed result => {| ui := handleAnalyzed (ui p) result; pending := pending p |}
  | SelectStyle st =>
      {| ui := {| analysis := analysis (ui p); design := design (ui p);
                  generating := generating (ui p); genError := genError (ui p);
                  selectedStyle := st |};
         pending := pending p |}
  | Click =>
      match analysis (ui p), generating (ui p) with
      | Some _, false =>
          let (s', call) := handleGenerate (ui p) in
          {| ui := s';
             pending := pending p ++ match call with Some r => [r] | None => [] end |}
      | _, _ => p
      end
  | Settled o =>
      match pending p with
      | [] => p
      | _ :: rest => {| ui := settled (ui p) o; pending := rest |}
      end
  end.

Definition run (evs : list event) : page :=
  fold_left step evs {| ui := initial; pending := [] |}.

(** The props of [DesignViewer], lines 89-97: the design, and
    [analysis?.analysis.dimensions.width ?? 4], [... depth ?? 6]. *)
Definition viewer_props (s : state)
  : option (DesignGenerateResponse * number * number) :=
  match design s with
  | None => None
  | Some d =>
      Some (d,
            match analysis s with Some a => width a | None => lit "4" end,
            match analysis s with Some a => depth a | None => lit "6" end)
  end.

(** What holds of the page after any events: a design is only shown, and a
    call only pending, for an analyzed room; at most one call is pending,
    and one is exactly while [generating] is set. *)
Definition settled_or_generating (p : page) : Prop :=
  (design (ui p) <> None -> analysis (ui p) <> None) /\
  (pending p <> [] -> analysis (ui p) <> None) /\
  ((generating (ui p) = true /\ exists r, pending p = [r]) \/
   (generating (ui p) = false /\ pending p = [])).

End Home.

(** * Properties *)

(** ** Splitting at line feeds *)

Section Lines.

Import JsString.

Lemma pop_snoc {A : Type} (front : list A) (x : A) :
  pop (front ++ [x]) = (Some x, front).
Proof.
  induction front as [|y front IH]; [reflexivity|].
  change ((y :: front) ++ [x]) with (y :: (front ++ [x])).
  cbn [pop]. rewrite IH.
  destruct (front ++ [x]) eqn:E; [|reflexivity].
  destruct front; discriminate.
Qed.

Lemma split_snoc (s : jsstring) :
  exists front piece, split s = front ++ [piece].
Proof.
  induction s as [|c s (front & piece & IH)].
  - exists [], []. reflexivity.
  - cbn [split]. rewrite IH. destruct (c =? LF).
    + exists ([] :: front), piece. reflexivity.
    + destruct front as [|l front]; cbn.
      * exists [], (c :: piece). reflexivity.
      * exists ((c :: l) :: front), piece. reflexivity.
Qed.

(** A string without a line feed is a single piece. *)
Lemma split_no_LF (s : jsstring) : ~ In LF s -> split s = [s].
Proof.
  induction s as [|c s IH]; intros H; [reflexivity|].
  cbn [split]. destruct (N.eqb_spec c LF) as [->|_].
  - exfalso. apply H. now left.
  - rewrite IH; [reflexivity|]. intros Hin. apply H. now right.
Qed.

(** A line, its line feed, and the rest. *)
Lemma split_line (l s : jsstring) :
  ~ In LF l -> split (l ++ LF :: s) = l :: split s.
Proof.
  induction l as [|c l IH]; intros H.
  - reflexivity.
  - change ((c :: l) ++ LF :: s) with (c :: (l ++ LF :: s)).
    cbn [split]. destruct (N.eqb_spec c LF) as [->|_].
    + exfalso. apply H. now left.
    + rewrite IH; [reflexivity|]. intros Hin. apply H. now right.
Qed.

(** Text that arrives later only extends the last piece. *)
Lemma split_app (a b : jsstring) (front : list jsstring) (piece : jsstring) :
  split a = front ++ [piece] ->
  split (a ++ b) = front ++ split (piece ++ b).
Proof.
  revert front piece. induction a as [|c a IH]; intros front piece H.
  - destruct front as [|x front]; cbn in H.
    + injection H as <-. reflexivity.
    + destruct front; discriminate.
  - change ((c :: a) ++ b) with (c :: (a ++ b)).
    cbn [split] in *.
    destruct (split_snoc a) as (front' & piece' & E).
    rewrite E in H. rewrite (IH _ _ E).
    destruct (c =? LF) eqn:Ec.
    + change ([] :: front' ++ [piece']) with (([] :: front') ++ [piece']) in H.
      apply app_inj_tail in H as [<- <-]. reflexivity.
    + destruct front' as [|l front'].
      * cbn in H. change [c :: piece'] with ([] ++ [c :: piece']) in H.
        apply app_inj_tail in H as [<- <-].
        cbn [app split]. rewrite Ec. reflexivity.
      * cbn in H.
        change ((c :: l) :: front' ++ [piece'])
          with (((c :: l) :: front') ++ [piece']) in H.
        apply app_inj_tail in H as [<- <-]. reflexivity.
Qed.

(** The residual piece holds no line feed. *)
Lemma split_last_no_LF (s : jsstring) (front : list jsstring) (piece : jsstring) :
  split s = front ++ [piece] -> ~ In LF piece.
Proof.
  revert front piece. induction s as [|c s IH]; intros front piece H.
  - destruct front as [|x front]; cbn in H.
    + injection H as <-. intros [].
    + destruct front; discriminate.
  - cbn [split] in H.
    destruct (split_snoc s) as (front' & piece' & E).
    rewrite E in H. specialize (IH _ _ E).
    destruct (N.eqb_spec c LF) as [->|Hc].
    + change ([] :: front' ++ [piece']) with (([] :: front') ++ [piece']) in H.
      apply app_inj_tail in H as [_ <-]. exact IH.
    + destruct front' as [|l front'].
      * cbn in H. change [c :: piece'] with ([] ++ [c :: piece']) in H.
        apply app_inj_tail in H as [_ <-].
        intros [Heq|Hin]; [congruence|contradiction].
      * cbn in H.
        change ((c :: l) :: front' ++ [piece'])
          with (((c :: l) :: front') ++ [piece']) in H.
        apply app_inj_tail in H as [_ <-]. exact IH.
Qed.

End Lines.

(** ** The decoder is driven byte by byte *)

Lemma decode_app (d : TextDecoder.t) (a b : list byte) :
  TextDecoder.decode d (a ++ b) =
  let (d1, out1) := TextDecoder.decode d a in
  let (d2, out2) := TextDecoder.decode d1 b in
  (d2, out1 ++ out2).
Proof.
  revert d. induction a as [|x a IH]; intros d.
  - cbn. destruct (TextDecoder.decode d b). reflexivity.
  - cbn [app TextDecoder.decode].
    destruct (TextDecoder.handler d (to_N x)) as [d1 o1].
    rewrite IH.
    destruct (TextDecoder.decode d1 a) as [d2 o2].
    destruct (TextDecoder.decode d2 b) as [d3 o3].
    now rewrite app_assoc.
Qed.

(** ** The loop over lines *)

Lemma for_lines_app (l1 l2 : list jsstring) :
  for_lines (l1 ++ l2) =
  let (cbs1, returned1) := for_lines l1 in
  if returned1 then (cbs1, true)
  else let (cbs2, returned2) := for_lines l2 in (cbs1 ++ cbs2, returned2).
Proof.
  induction l1 as [|l l1 IH]; cbn [app for_lines].
  - destruct (for_lines l2). reflexivity.
  - destruct (on_line l).
    + exact IH.
    + rewrite IH. destruct (for_lines l1) as [c1 [|]]; [reflexivity|].
      destruct (for_lines l2). reflexivity.
    + reflexivity.
Qed.

Lemma after_nil (r : run) : after [] r = r.
Proof. destruct r. reflexivity. Qed.

Lemma after_after (c1 c2 : list callback) (r : run) :
  after c1 (after c2 r) = after (c1 ++ c2) r.
Proof. unfold after. cbn. now rewrite app_assoc. Qed.

(** ** Chunk boundaries *)

(** One step of the loop, on a buffer split as [front ++ [piece]]. *)
Lemma read_loop_value d buffer value reads d' decoded front piece :
  TextDecoder.decode d value = (d', decoded) ->
  JsString.split (buffer ++ decoded) = front ++ [piece] ->
  read_loop d buffer (Value value :: reads) =
  let (cbs, returned) := for_lines front in
  if returned then (cbs, ReturnedOnDone)
  else after cbs (read_loop d' piece reads).
Proof.
  intros Hd Hs. cbn [read_loop]. rewrite Hd, Hs, pop_snoc. reflexivity.
Qed.

(** Two successive chunks are read as their concatenation is. *)
Lemma read_loop_merge d buffer a b reads :
  read_loop d buffer (Value a :: Value b :: reads) =
  read_loop d buffer (Value (a ++ b) :: reads).
Proof.
  destruct (TextDecoder.decode d a) as [d1 o1] eqn:Ea.
  destruct (TextDecoder.decode d1 b) as [d2 o2] eqn:Eb.
  destruct (split_snoc (buffer ++ o1)) as (f1 & p1 & E1).
  destruct (split_snoc (p1 ++ o2)) as (f2 & p2 & E2).
  rewrite (read_loop_value _ _ _ _ _ _ _ _ Ea E1).
  assert (Eab : TextDecoder.decode d (a ++ b) = (d2, o1 ++ o2))
    by (rewrite decode_app, Ea, Eb; reflexivity).
  assert (E : JsString.split (buffer ++ o1 ++ o2) = (f1 ++ f2) ++ [p2])
    by (rewrite app_assoc, (split_app _ _ _ _ E1), E2, app_assoc;
        reflexivity).
  rewrite (read_loop_value _ _ _ _ _ _ _ _ Eab E).
  rewrite for_lines_app.
  destruct (for_lines f1) as [c1 [|]]; [reflexivity|].
  rewrite (read_loop_value _ _ _ _ _ _ _ _ Eb E2).
  destruct (for_lines f2) as [c2 [|]].
  - reflexivity.
  - now rewrite after_after.
Qed.

(** An empty chunk changes nothing while the buffer holds no line feed. *)
Lemma read_loop_empty d buffer reads :
  ~ In LF buffer ->
  read_loop d buffer (Value [] :: reads) = read_loop d buffer reads.
Proof.
  intros H.
  assert (E : JsString.split (buffer ++ []) = [] ++ [buffer])
    by (rewrite app_nil_r; now apply split_no_LF).
  rewrite (read_loop_value d buffer [] reads d [] [] buffer eq_refl E).
  cbn. apply after_nil.
Qed.

(** Any number of chunks is read as their concatenation is. *)
Lemma read_loop_concat d buffer chunks reads :
  ~ In LF buffer ->
  read_loop d buffer (map Value chunks ++ reads) =
  read_loop d buffer (Value (List.concat chunks) :: reads).
Proof.
  intros H. revert d buffer H.
  induction chunks as [|c chunks IH]; intros d buffer H.
  - cbn [map List.concat app]. symmetry. now apply read_loop_empty.
  - cbn [map List.concat app]. rewrite <- read_loop_merge.
    destruct (TextDecoder.decode d c) as [d1 o1] eqn:Ec.
    destruct (split_snoc (buffer ++ o1)) as (f1 & p1 & E1).
    rewrite !(read_loop_value _ _ _ _ _ _ _ _ Ec E1).
    destruct (for_lines f1) as [c1 [|]]; [reflexivity|].
    f_equal. apply IH. exact (split_last_no_LF _ _ _ E1).
Qed.

(** ** A line feed is decoded from the byte 0x0A only *)

Section Utf8.

Import TextDecoder.

Lemma decoding_init : decoding init.
Proof. split; cbn; [lia | now left]. Qed.

Lemma code_units_no_LF (cp : N) : cp <> LF -> ~ In LF (code_units cp).
Proof.
  unfold code_units, LF. intros H.
  destruct (cp <? 65536); cbn [In].
  - intros [E|[]]. now apply H.
  - intros [E|[E|[]]]; lia.
Qed.

Lemma emit_no_LF (d : t) (cp : N) : cp <> LF -> ~ In LF (snd (emit d cp)).
Proof.
  intros H. unfold emit.
  destruct (bom_seen d); cbn; [now apply code_units_no_LF|].
  destruct (cp =? 65279); cbn; [tauto | now apply code_units_no_LF].
Qed.

Lemma emit_state (d : t) (cp : N) :
  bytes_needed (fst (emit d cp)) = bytes_needed d /\
  upper_boundary (fst (emit d cp)) = upper_boundary d.
Proof.
  unfold emit. destruct (bom_seen d); [now split|].
  destruct (cp =? 65279); now split.
Qed.

Lemma emit_reset_decoding (d : t) (cp : N) : decoding (fst (emit (reset d) cp)).
Proof.
  destruct (emit_state (reset d) cp) as [Hn Hu].
  split; [rewrite Hu; cbn; lia | left; rewrite Hn; reflexivity].
Qed.

(** The bits a first byte leaves in the code point. *)
Lemma lead_bits (b : byte) :
  let n := to_N b in
  ((194 <=? n) && (n <=? 223) = true -> 1 <= N.land n 31) /\
  ((224 <=? n) && (n <=? 239) = true -> n <> 224 -> 1 <= N.land n 15) /\
  ((240 <=? n) && (n <=? 244) = true -> n <> 240 -> 1 <= N.land n 7) /\
  (144 <= n <= 191 -> 16 <= N.land n 63).
Proof.
  destruct b; cbn; repeat split; intros; try discriminate; try lia.
Qed.

Lemma lead_no_LF (d : t) (b : N) : b <> LF -> ~ In LF (snd (lead d b)).
Proof.
  intros H. unfold lead.
  destruct (b <=? 127); [now apply emit_no_LF|].
  destruct ((194 <=? b) && (b <=? 223)); [cbn; tauto|].
  destruct ((224 <=? b) && (b <=? 239)); [cbn; tauto|].
  destruct ((240 <=? b) && (b <=? 244)); [cbn; tauto|].
  apply emit_no_LF. discriminate.
Qed.

Lemma lead_decoding (d : t) (b : byte) :
  decoding d -> bytes_needed d = 0 -> decoding (fst (lead d (to_N b))).
Proof.
  intros [Hu _] Hn. unfold lead.
  destruct (lead_bits b) as (H2 & H3 & H4 & _). cbv zeta in *.
  assert (Hemit : forall cp, decoding (fst (emit d cp))).
  { intros cp. destruct (emit_state d cp) as [En Eu].
    split; [now rewrite Eu | left; now rewrite En]. }
  destruct (to_N b <=? 127); [apply Hemit|].
  destruct ((194 <=? to_N b) && (to_N b <=? 223)).
  { split; cbn; [lia | right; left; now apply H2]. }
  destruct ((224 <=? to_N b) && (to_N b <=? 239)).
  { split; cbn.
    - destruct (to_N b =? 237); lia.
    - destruct (N.eqb_spec (to_N b) 224); [right; right; lia|].
      right; left. now apply H3. }
  destruct ((240 <=? to_N b) && (to_N b <=? 244)).
  { split; cbn.
    - destruct (to_N b =? 244); lia.
    - destruct (N.eqb_spec (to_N b) 240); [right; right; lia|].
      right; left. now apply H4. }
  apply Hemit.
Qed.

Lemma lor_large (a b : N) : 16 <= a \/ 16 <= b -> 16 <= N.lor a b.
Proof.
  intros H.
  assert (Hl : 4 <= N.log2 (N.lor a b)).
  { rewrite N.log2_lor.
    destruct H as [H|H]; apply N.log2_le_mono in H;
      change (N.log2 16) with 4 in H; lia. }
  destruct (N.le_gt_cases 16 (N.lor a b)) as [|Hlt]; [assumption|].
  assert (N.log2 (N.lor a b) < 4); [|lia].
  destruct (N.eq_dec (N.lor a b) 0) as [->|Hz]; [cbn; lia|].
  apply N.log2_lt_pow2; [lia|]. exact Hlt.
Qed.

(** The code point gathered from a continuation byte within bounds. *)
Lemma continuation_large (d : t) (b : byte) :
  decoding d -> bytes_needed d <> 0 ->
  lower_boundary d <= to_N b <= upper_boundary d ->
  16 <= N.lor (N.shiftl (code_point d) 6) (N.land (to_N b) 63).
Proof.
  intros [Hu [Hn|[Hc|Hl]]] Hne Hb; [contradiction| |]; apply lor_large.
  - left. rewrite N.shiftl_mul_pow2. change (2 ^ 6) with 64. lia.
  - right. destruct (lead_bits b) as (_ & _ & _ & H). apply H. lia.
Qed.

Lemma handler_decoding (d : t) (b : byte) :
  decoding d -> decoding (fst (handler d (to_N b))).
Proof.
  intros Hd. unfold handler.
  destruct (N.eqb_spec (bytes_needed d) 0) as [Hn|Hn].
  { now apply lead_decoding. }
  destruct ((to_N b <? lower_boundary d) || (upper_boundary d <? to_N b)) eqn:Hr.
  - pose proof (emit_reset_decoding d REPLACEMENT) as H1.
    pose proof (emit_state (reset d) REPLACEMENT) as [En _].
    destruct (emit (reset d) REPLACEMENT) as [d1 out1]. cbn [fst] in *.
    pose proof (lead_decoding d1 b H1 En) as H2.
    destruct (lead d1 (to_N b)) as [d2 out2]. exact H2.
  - apply orb_false_iff in Hr as [Hl Hu].
    apply N.ltb_ge in Hl, Hu.
    pose proof (continuation_large d b Hd Hn (conj Hl Hu)) as Hcp.
    cbv zeta. destruct (bytes_seen d + 1 =? bytes_needed d).
    + apply emit_reset_decoding.
    + split; cbn; [lia | right; left; lia].
Qed.

Lemma handler_no_LF (d : t) (b : byte) :
  decoding d -> to_N b <> LF -> ~ In LF (snd (handler d (to_N b))).
Proof.
  intros Hd Hb. unfold handler.
  destruct (N.eqb_spec (bytes_needed d) 0) as [Hn|Hn].
  { now apply lead_no_LF. }
  destruct ((to_N b <? lower_boundary d) || (upper_boundary d <? to_N b)) eqn:Hr.
  - pose proof (emit_no_LF (reset d) REPLACEMENT) as H1.
    destruct (emit (reset d) REPLACEMENT) as [d1 out1].
    pose proof (lead_no_LF d1 (to_N b) Hb) as H2.
    destruct (lead d1 (to_N b)) as [d2 out2]. cbn [snd] in *.
    intros Hin. apply in_app_or in Hin as [Hin|Hin]; [|now apply H2].
    apply H1; [discriminate | exact Hin].
  - apply orb_false_iff in Hr as [Hl Hu].
    apply N.ltb_ge in Hl, Hu.
    pose proof (continuation_large d b Hd Hn (conj Hl Hu)) as Hcp.
    cbv zeta. destruct (bytes_seen d + 1 =? bytes_needed d).
    + apply emit_no_LF. unfold LF. lia.
    + cbn. tauto.
Qed.

Lemma decode_decoding (d : t) (value : list byte) :
  decoding d -> decoding (fst (decode d value)).
Proof.
  revert d. induction value as [|b value IH]; intros d Hd; [exact Hd|].
  cbn [decode].
  pose proof (handler_decoding d b Hd) as H1.
  destruct (handler d (to_N b)) as [d1 out1]. cbn [fst] in H1.
  specialize (IH d1 H1).
  destruct (decode d1 value) as [d2 out2]. exact IH.
Qed.

(** Bytes other than 0x0A decode to text without a line feed. *)
Lemma decode_no_LF (d : t) (value : list byte) :
  decoding d -> ~ In x0a value -> ~ In LF (snd (decode d value)).
Proof.
  revert d. induction value as [|b value IH]; intros d Hd Hv; [intros []|].
  cbn [decode].
  assert (Hb : to_N b <> LF).
  { intros E. apply Hv. left.
    pose proof (Byte.of_to_N b) as P. rewrite E in P. cbn in P. congruence. }
  pose proof (handler_decoding d b Hd) as H1.
  pose proof (handler_no_LF d b Hd Hb) as H2.
  destruct (handler d (to_N b)) as [d1 out1]. cbn [fst snd] in *.
  assert (Hv' : ~ In x0a value) by (intros Hin; apply Hv; now right).
  specialize (IH d1 H1 Hv').
  destruct (decode d1 value) as [d2 out2]. cbn [snd] in *.
  intros Hin. apply in_app_or in Hin as [Hin|Hin]; tauto.
Qed.

End Utf8.

(** ** Prefixes of a run *)

Lemma streamProcure_ok st reads :
  200 <= st <= 299 ->
  streamProcure (response st reads) = read_loop TextDecoder.init [] reads.
Proof.
  intros H. unfold streamProcure, response, ok. cbn [status body].
  destruct (N.leb_spec 200 st); [|lia].
  destruct (N.leb_spec st 299); [|lia]. reflexivity.
Qed.

(** While the loop awaits a read it holds a decoder between two bytes and a
    buffer without line feed, and goes on from there; once it has left, what
    the transport does next is not looked at. *)
Lemma read_loop_app d buffer reads :
  decoding d -> ~ In LF buffer ->
  (snd (read_loop d buffer reads) = AwaitingRead /\
   exists d' buffer', decoding d' /\ ~ In LF buffer' /\
     forall more, read_loop d buffer (reads ++ more) =
                  after (fst (read_loop d buffer reads)) (read_loop d' buffer' more))
  \/
  (snd (read_loop d buffer reads) <> AwaitingRead /\
   forall more, read_loop d buffer (reads ++ more) = read_loop d buffer reads).
Proof.
  revert d buffer. induction reads as [|r reads IH]; intros d buffer Hd Hb.
  - left. split; [reflexivity|]. exists d, buffer.
    split; [exact Hd|]. split; [exact Hb|].
    intros more. cbn [app read_loop fst]. now rewrite after_nil.
  - destruct r as [value| |e].
    + pose proof (decode_decoding d value Hd) as Hd1.
      destruct (TextDecoder.decode d value) as [d1 o1] eqn:Ev. cbn [fst] in Hd1.
      destruct (split_snoc (buffer ++ o1)) as (front & piece & Es).
      pose proof (split_last_no_LF _ _ _ Es) as Hp.
      cbn [app]. rewrite (read_loop_value _ _ _ _ _ _ _ _ Ev Es).
      assert (Hall : forall more, read_loop d buffer (Value value :: reads ++ more) =
                let (cbs, returned) := for_lines front in
                if returned then (cbs, ReturnedOnDone)
                else after cbs (read_loop d1 piece (reads ++ more)))
        by (intros more; apply (read_loop_value _ _ _ _ _ _ _ _ Ev Es)).
      destruct (for_lines front) as [cbs [|]].
      * right. split; [discriminate|]. exact Hall.
      * destruct (IH d1 piece Hd1 Hp) as [[Hs (d' & b' & Hd' & Hb' & Hm)]|[Hs Hm]].
        -- left. split; [exact Hs|]. exists d', b'.
           split; [exact Hd'|]. split; [exact Hb'|].
           intros more. rewrite Hall, Hm. cbn [after fst snd].
           unfold after. cbn [fst snd]. now rewrite app_assoc.
        -- right. split; [exact Hs|]. intros more. now rewrite Hall, Hm.
    + right. split; [discriminate|]. reflexivity.
    + right. cbn [app read_loop]. split; [|reflexivity]. unfold catch.
      destruct e as [err|]; [destruct (String.eqb (name err) "AbortError")|];
        discriminate.
Qed.

(** The callbacks of a run are events, then at most one of [onDone] and
    [onError], as the way out has it. *)
Lemma read_loop_shape d buffer reads :
  exists evs, let (cbs, ex) := read_loop d buffer reads in
    match ex with
    | AwaitingRead => cbs = map onEvent evs
    | ReturnedOnDone | EndOfStream => cbs = map onEvent evs ++ [onDone]
    | Caught => cbs = map onEvent evs \/ exists err, cbs = map onEvent evs ++ [onError err]
    | AwaitingFetch => False
    end.
Proof.
  assert (Hfor : forall lines, exists evs,
    let (cbs, returned) := for_lines lines in
    if returned then cbs = map onEvent evs ++ [onDone] else cbs = map onEvent evs).
  { induction lines as [|l lines (evs & IH)]; cbn [for_lines].
    - now exists [].
    - destruct (on_line l) as [|parsed|].
      + now exists evs.
      + destruct (for_lines lines) as [cbs [|]]; exists (parsed :: evs);
          cbn; now rewrite IH.
      + now exists []. }
  revert d buffer. induction reads as [|r reads IH]; intros d buffer.
  - now exists [].
  - destruct r as [value| |e].
    + cbn [read_loop].
      destruct (TextDecoder.decode d value) as [d1 o1].
      destruct (JsString.pop _) as [last lines].
      destruct (Hfor lines) as (evs1 & H1).
      destruct (for_lines lines) as [cbs [|]]; [now exists evs1|].
      destruct (IH d1 (JsString.nullish last [])) as (evs2 & H2).
      destruct (read_loop d1 _ reads) as [cbs2 ex]. unfold after. cbn [fst snd].
      exists (evs1 ++ evs2). rewrite map_app, H1.
      destruct ex; try (now rewrite H2, ?app_assoc); [exact H2|].
      destruct H2 as [->|(err & ->)]; [now left|right].
      exists err. now rewrite app_assoc.
    + now exists [].
    + exists []. cbn [read_loop]. unfold catch.
      destruct e as [err|]; [destruct (String.eqb (name err) "AbortError")|];
        cbn; eauto.
Qed.

(** A response is read, or it is thrown as [SSE error]. *)
Lemma streamProcure_response st reads :
  (200 <= st <= 299 /\
   streamProcure (response st reads) = read_loop TextDecoder.init [] reads) \/
  (~ 200 <= st <= 299 /\
   streamProcure (response st reads) =
   ([onError (sse_error {| status := st; body := Some reads |})], Caught)).
Proof.
  unfold streamProcure, response, ok. cbn [status body].
  destruct (N.leb_spec 200 st); destruct (N.leb_spec st 299); cbn [andb].
  1: left; split; [lia | reflexivity].
  all: right; split; [lia | reflexivity].
Qed.

Lemma no_LF_nil : ~ In LF (@nil codeunit).
Proof. intros []. Qed.

(** Chunks alone never end the loop otherwise than on a [done] frame. *)
Lemma read_loop_chunks_exit d buffer chunks :
  snd (read_loop d buffer (map Value chunks)) = AwaitingRead \/
  snd (read_loop d buffer (map Value chunks)) = ReturnedOnDone.
Proof.
  revert d buffer. induction chunks as [|c chunks IH]; intros d buffer.
  - now left.
  - cbn [map read_loop].
    destruct (TextDecoder.decode d c) as [d1 o1].
    destruct (JsString.pop _) as [last lines].
    destruct (for_lines lines) as [cbs [|]]; [now right|].
    unfold after. cbn [snd]. apply IH.
Qed.

(** ** What the loop does with a line *)

Lemma parse_empty : JSON.parse [] = None.
Proof. reflexivity. Qed.

Lemma on_line_event line parsed : event_frame line parsed -> on_line line = Emit parsed.
Proof.
  intros (Hm & Hp & Hn & Hd). unfold on_line.
  fold (marker line). rewrite Hm. fold (payload line).
  destruct (payload line) as [|c raw] eqn:E; [rewrite parse_empty in Hp; discriminate|].
  rewrite Hp. unfold is_done in Hd.
  destruct (get_event parsed) as [ev|] eqn:Eg.
  - now rewrite Hd.
  - destruct parsed; cbn in Eg; try discriminate. contradiction.
Qed.

Lemma on_line_done line : done_frame line -> on_line line = Stop.
Proof.
  intros (Hm & parsed & Hp & Hd). unfold on_line.
  fold (marker line). rewrite Hm. fold (payload line).
  destruct (payload line) as [|c raw] eqn:E; [rewrite parse_empty in Hp; discriminate|].
  rewrite Hp. unfold is_done in Hd.
  destruct (get_event parsed) as [ev|]; [now rewrite Hd | discriminate].
Qed.

Lemma on_line_malformed line : malformed line -> on_line line = Skip.
Proof.
  unfold on_line. fold (marker line). fold (payload line).
  intros [Hm|[Hp|Hp]]; [now rewrite Hm| |]; destruct (marker line); trivial;
    destruct (payload line); trivial; now rewrite Hp.
Qed.

(** What is handed to [onEvent] is neither [null] nor a [done] event. *)
Lemma on_line_emit line parsed :
  on_line line = Emit parsed -> parsed <> JNull /\ is_done parsed = false.
Proof.
  unfold on_line, is_done.
  destruct (JsString.startsWith _ _); [|discriminate].
  destruct (JsString.trim _) as [|c raw]; [discriminate|].
  destruct (JSON.parse _) as [v|]; [|discriminate].
  destruct (get_event v) as [ev|] eqn:Eg; [|discriminate].
  destruct (strict_eq ev (lit "done")) eqn:Es; [discriminate|].
  intros [= <-]. rewrite Eg. split; [|exact Es].
  intros ->. discriminate.
Qed.

Lemma for_lines_malformed junk lines :
  Forall malformed junk -> for_lines (junk ++ lines) = for_lines lines.
Proof.
  induction 1 as [|l junk Hl _ IH]; [reflexivity|].
  cbn [app for_lines]. now rewrite (on_line_malformed _ Hl).
Qed.

Lemma split_unlines ls : Forall is_line ls -> JsString.split (unlines ls) = ls ++ [[]].
Proof.
  induction 1 as [|l ls Hl _ IH]; [reflexivity|].
  unfold unlines in *. cbn [map List.concat].
  rewrite <- app_assoc. cbn [app]. rewrite (split_line _ _ Hl), IH. reflexivity.
Qed.

(** ** The component's state under events *)

Lemma deliver_events s evs :
  AgentStream.deliver_all s (map onEvent evs) =
  {| AgentStream.events := AgentStream.events s ++ evs;
     AgentStream.running := AgentStream.running s;
     AgentStream.done := AgentStream.done s |}.
Proof.
  revert s. induction evs as [|ev evs IH]; intros s.
  - cbn. rewrite app_nil_r. now destruct s.
  - cbn [map AgentStream.deliver_all fold_left].
    change (fold_left AgentStream.deliver (map onEvent evs) ?x)
      with (AgentStream.deliver_all x (map onEvent evs)).
    rewrite IH. cbn. now rewrite <- app_assoc.
Qed.

(** ** The poll comes to rest *)

Section Poll.

Import DesignViewer.

Lemma effect_schedule s id :
  effect s = Schedule id ->
  polling s = true /\
  exists job, renderJob s = Some job /\ terminal job = false /\ id = job_id job.
Proof.
  unfold effect. destruct (polling s); [|discriminate].
  destruct (renderJob s) as [job|]; [|discriminate].
  destruct (terminal job) eqn:E; [discriminate|].
  intros [= <-]. split; [reflexivity|]. now exists job.
Qed.

Lemma effect_nothing s :
  polling s = false \/ renderJob s <> None ->
  effect s = Nothing -> polling s = false.
Proof.
  unfold effect. intros Hs. destruct (polling s); [|reflexivity].
  destruct (renderJob s) as [job|].
  - destruct (terminal job); discriminate.
  - destruct Hs; [discriminate|contradiction].
Qed.

Lemma timer_keeps s r :
  polling s = false \/ renderJob s <> None ->
  polling (timer s r) = false \/ renderJob (timer s r) <> None.
Proof. intros Hs. destruct r; cbn; [right; discriminate | now left]. Qed.

(** Once a terminal snapshot has come in, the poll is at rest, whatever
    replies might follow. *)
Lemma poll_terminal s replies j more :
  polling s = false \/ renderJob s <> None ->
  terminal j = true ->
  let r := poll s (replies ++ Snapshot j :: more) in
  polling (snd r) = false /\ effect (snd r) = Nothing /\
  poll s (replies ++ [Snapshot j]) = r.
Proof.
  intros Hs Hj. cbv zeta. revert s Hs.
  induction replies as [|r0 replies IH]; intros s Hs.
  - cbn [app]. destruct more as [|m more]; cbn [poll].
    all: destruct (effect s) eqn:E.
    all: try (cbn [snd]; repeat split; [now apply effect_nothing | exact E]).
    all: try (cbn; now repeat split).
    all: apply effect_schedule in E as (Hp & _).
    all: unfold effect; cbn [timer polling renderJob]; rewrite Hp, Hj.
    all: cbn; now repeat split.
  - cbn [app poll]. destruct (effect s) eqn:E.
    + cbn [snd]. repeat split; [now apply effect_nothing | exact E].
    + cbn. now repeat split.
    + destruct (IH _ (timer_keeps s r0 Hs)) as (H1 & H2 & H3).
      rewrite H3.
      destruct (poll (timer s r0) (replies ++ Snapshot j :: more)) as [ids s'].
      cbn [snd] in *. now repeat split.
Qed.

End Poll.

(** ** [JSON.parse] has fuel enough

    The fuel of [parse_value] bounds the nesting of the recursion, not the
    text: with twice the length of the text, more fuel changes nothing. *)

Section Fuel.

Import JSON.
Local Open Scope nat_scope.

Lemma ws_length s : List.length (ws s) <= List.length s.
Proof.
  induction s as [|c s IH]; cbn [ws]; [lia|].
  destruct (_ || _); cbn [List.length]; lia.
Qed.

Lemma cons_to_length {A} c (r : option (jsstring * A)) str rest :
  cons_to c r = Some (str, rest) -> exists str', r = Some (str', rest).
Proof. destruct r as [[str' rest']|]; cbn; [|discriminate]. intros [= <- <-]. eauto. Qed.

Lemma chars_length s str rest :
  chars s = Some (str, rest) -> List.length rest < List.length s.
Proof.
  remember (List.length s) as n eqn:En. revert s str rest En.
  induction n as [n IH] using lt_wf_ind. intros s str rest En.
  destruct s as [|c s1]; cbn [chars]; [discriminate|].
  cbn [List.length] in En.
  destruct (c =? 34)%N; [intros [= <- <-]; lia|].
  destruct (c =? 92)%N.
  - destruct s1 as [|e s2]; [discriminate|].
    destruct (e =? 117)%N.
    + destruct s2 as [|h1 [|h2 [|h3 [|h4 s3]]]]; try discriminate.
      destruct (hex4 h1 h2 h3 h4); [|discriminate].
      intros H. apply cons_to_length in H as (str' & H).
      cbn [List.length] in En.
      specialize (IH (List.length s3) ltac:(lia) s3 str' rest eq_refl H). lia.
    + destruct (escape e); [|discriminate].
      intros H. apply cons_to_length in H as (str' & H).
      cbn [List.length] in En.
      specialize (IH (List.length s2) ltac:(lia) s2 str' rest eq_refl H). lia.
  - destruct (c <? 32)%N; [discriminate|].
    intros H. apply cons_to_length in H as (str' & H).
    specialize (IH (List.length s1) ltac:(lia) s1 str' rest eq_refl H). lia.
Qed.

Lemma digits_length s : List.length (snd (digits s)) <= List.length s.
Proof.
  induction s as [|c s IH]; cbn [digits]; [cbn; lia|].
  destruct (is_digit c); [|cbn; lia].
  destruct (digits s) as [ds rest]. cbn [snd List.length] in *. lia.
Qed.

Lemma int_part_length s i rest :
  int_part s = Some (i, rest) -> List.length rest < List.length s.
Proof.
  destruct s as [|c s]; cbn [int_part]; [discriminate|].
  destruct (c =? 48)%N; [intros [= <- <-]; cbn; lia|].
  destruct (is_digit c) eqn:Ed; [|discriminate].
  cbn [digits]. rewrite Ed.
  pose proof (digits_length s) as H.
  destruct (digits s) as [ds r]. intros [= <- <-]. cbn [snd List.length] in *. lia.
Qed.

Lemma frac_part_length s f rest :
  frac_part s = Some (f, rest) -> List.length rest <= List.length s.
Proof.
  destruct s as [|c s]; cbn [frac_part]; [intros [= <- <-]; lia|].
  destruct (c =? 46)%N; [|intros [= <- <-]; lia].
  pose proof (digits_length s) as H.
  destruct (digits s) as [[|d ds] r]; [discriminate|].
  intros [= <- <-]. cbn [snd List.length] in *. lia.
Qed.

Lemma exp_digits_length pre s e rest :
  exp_digits pre s = Some (e, rest) -> List.length rest <= List.length s.
Proof.
  unfold exp_digits. pose proof (digits_length s) as H.
  destruct (digits s) as [[|d ds] r]; [discriminate|].
  intros [= <- <-]. exact H.
Qed.

Lemma exp_part_length s e rest :
  exp_part s = Some (e, rest) -> List.length rest <= List.length s.
Proof.
  destruct s as [|c s]; cbn [exp_part]; [intros [= <- <-]; lia|].
  destruct ((c =? 101) || (c =? 69))%N; [|intros [= <- <-]; lia].
  destruct s as [|g s']; [discriminate|].
  destruct ((g =? 43) || (g =? 45))%N; intros H; apply exp_digits_length in H;
    cbn [List.length] in *; lia.
Qed.

Lemma unsigned_number_length s lexeme rest :
  unsigned_number s = Some (lexeme, rest) -> List.length rest < List.length s.
Proof.
  unfold unsigned_number.
  destruct (int_part s) as [[i s1]|] eqn:Ei; [|discriminate].
  destruct (frac_part s1) as [[f s2]|] eqn:Ef; [|discriminate].
  destruct (exp_part s2) as [[e s3]|] eqn:Ee; [|discriminate].
  intros [= <- <-].
  apply int_part_length in Ei. apply frac_part_length in Ef.
  apply exp_part_length in Ee. lia.
Qed.

Lemma number_length s lexeme rest :
  number s = Some (lexeme, rest) -> List.length rest < List.length s.
Proof.
  destruct s as [|c s]; cbn [number]; [discriminate|].
  destruct (c =? 45)%N.
  - intros H. apply cons_to_length in H as (l' & H).
    apply unsigned_number_length in H. cbn [List.length]. lia.
  - apply unsigned_number_length.
Qed.

Lemma startsWith_length s p :
  JsString.startsWith s p = true -> List.length p <= List.length s.
Proof.
  revert s. induction p as [|y p IH]; intros s; cbn [JsString.startsWith List.length].
  - lia.
  - destruct s as [|x s]; [discriminate|].
    intros H. apply andb_prop in H as [_ H]. apply IH in H. cbn [List.length]. lia.
Qed.

Lemma keyword_length s v rest :
  keyword s = Some (v, rest) -> List.length rest < List.length s.
Proof.
  unfold keyword.
  destruct (JsString.startsWith s (lit "null")) eqn:E1;
    [|destruct (JsString.startsWith s (lit "true")) eqn:E2;
      [|destruct (JsString.startsWith s (lit "false")) eqn:E3; [|discriminate]]].
  all: intros [= <- <-].
  - change (List.length (skipn 4 s) < List.length s). rewrite length_skipn.
    apply startsWith_length in E1. cbn in E1. lia.
  - change (List.length (skipn 4 s) < List.length s). rewrite length_skipn.
    apply startsWith_length in E2. cbn in E2. lia.
  - change (List.length (skipn 5 s) < List.length s). rewrite length_skipn.
    apply startsWith_length in E3. cbn in E3. lia.
Qed.

(** What is parsed is taken off the text. *)
Lemma parse_length fuel :
  (forall s v rest, parse_value fuel s = Some (v, rest) ->
                    List.length rest < List.length s) /\
  (forall s vs rest, elements fuel s = Some (vs, rest) ->
                     List.length rest < List.length s) /\
  (forall s ms rest, members fuel s = Some (ms, rest) ->
                     List.length rest < List.length s).
Proof.
  induction fuel as [|fuel (IHv & IHe & IHm)];
    [repeat split; intros; discriminate|].
  split; [|split].
  - intros s v rest. cbn [parse_value].
    destruct s as [|c s1]; [discriminate|]. cbn [List.length].
    pose proof (ws_length s1) as Hw.
    destruct (c =? 123)%N.
    { destruct (ws s1) as [|d s2] eqn:Ew; [discriminate|]. cbn [List.length] in Hw.
      destruct (d =? 125)%N; [intros [= <- <-]; lia|].
      destruct (members fuel (d :: s2)) as [[ms r]|] eqn:Em; [|discriminate].
      intros [= <- <-]. apply IHm in Em. cbn [List.length] in Em. lia. }
    destruct (c =? 91)%N.
    { destruct (ws s1) as [|d s2] eqn:Ew; [discriminate|]. cbn [List.length] in Hw.
      destruct (d =? 93)%N; [intros [= <- <-]; lia|].
      destruct (elements fuel (d :: s2)) as [[vs r]|] eqn:Em; [|discriminate].
      intros [= <- <-]. apply IHe in Em. cbn [List.length] in Em. lia. }
    destruct (c =? 34)%N.
    { destruct (chars s1) as [[str r]|] eqn:Ec; [|discriminate].
      intros [= <- <-]. apply chars_length in Ec. lia. }
    destruct ((c =? 45)%N || is_digit c).
    { destruct (number (c :: s1)) as [[lx r]|] eqn:En; [|discriminate].
      intros [= <- <-]. apply number_length in En. cbn [List.length] in En. lia. }
    intros H. apply keyword_length in H. cbn [List.length] in H. lia.
  - intros s vs rest. cbn [elements].
    pose proof (ws_length s) as Hw.
    destruct (parse_value fuel (ws s)) as [[v s1]|] eqn:Ev; [|discriminate].
    apply IHv in Ev. pose proof (ws_length s1) as Hw1.
    destruct (ws s1) as [|c s2] eqn:Ew; [discriminate|]. cbn [List.length] in Hw1.
    destruct (c =? 44)%N.
    { destruct (elements fuel s2) as [[vs' r]|] eqn:Ee; [|discriminate].
      intros [= <- <-]. apply IHe in Ee. lia. }
    destruct (c =? 93)%N; [|discriminate].
    intros [= <- <-]. lia.
  - intros s ms rest. cbn [members].
    pose proof (ws_length s) as Hw.
    destruct (ws s) as [|q s1] eqn:Ew; [discriminate|]. cbn [List.length] in Hw.
    destruct (q =? 34)%N; [|discriminate].
    destruct (chars s1) as [[name s2]|] eqn:Ec; [|discriminate].
    apply chars_length in Ec. pose proof (ws_length s2) as Hw2.
    destruct (ws s2) as [|colon s3] eqn:Ew2; [discriminate|].
    cbn [List.length] in Hw2.
    destruct (colon =? 58)%N; [|discriminate].
    pose proof (ws_length s3) as Hw3.
    destruct (parse_value fuel (ws s3)) as [[v s4]|] eqn:Ev; [|discriminate].
    apply IHv in Ev. pose proof (ws_length s4) as Hw4.
    destruct (ws s4) as [|c s5] eqn:Ew4; [discriminate|]. cbn [List.length] in Hw4.
    destruct (c =? 44)%N.
    { destruct (members fuel s5) as [[ms' r]|] eqn:Em; [|discriminate].
      intros [= <- <-]. apply IHm in Em. lia. }
    destruct (c =? 125)%N; [|discriminate].
    intros [= <- <-]. lia.
Qed.

Lemma elements_S fuel s :
  elements (S fuel) s =
  match parse_value fuel (ws s) with
  | Some (v, s1) =>
      match ws s1 with
      | c :: s2 =>
          if (c =? 44)%N then
            match elements fuel s2 with
            | Some (vs, rest) => Some (v :: vs, rest)
            | None => None
            end
          else if (c =? 93)%N then Some ([v], s2)
          else None
      | [] => None
      end
  | None => None
  end.
Proof. reflexivity. Qed.

Lemma members_S fuel s :
  members (S fuel) s =
  match ws s with
  | q :: s1 =>
      if (q =? 34)%N then
        match chars s1 with
        | Some (name, s2) =>
            match ws s2 with
            | colon :: s3 =>
                if (colon =? 58)%N then
                  match parse_value fuel (ws s3) with
                  | Some (v, s4) =>
                      match ws s4 with
                      | c :: s5 =>
                          if (c =? 44)%N then
                            match members fuel s5 with
                            | Some (ms, rest) => Some ((name, v) :: ms, rest)
                            | None => None
                            end
                          else if (c =? 125)%N then Some ([(name, v)], s5)
                          else None
                      | [] => None
                      end
                  | None => None
                  end
                else None
            | [] => None
            end
        | None => None
        end
      else None
  | [] => None
  end.
Proof. reflexivity. Qed.

(** With twice the length of the text as fuel, one more changes nothing. *)
Lemma parse_fuel_step fuel :
  (forall s, 2 * List.length s <= fuel ->
             parse_value (S fuel) s = parse_value fuel s) /\
  (forall s, 2 * List.length s + 1 <= fuel ->
             elements (S fuel) s = elements fuel s) /\
  (forall s, 2 * List.length s + 1 <= fuel ->
             members (S fuel) s = members fuel s).
Proof.
  induction fuel as [|fuel (IHv & IHe & IHm)].
  { split; [|split; intros; lia].
    intros [|c s]; [reflexivity|cbn [List.length]; lia]. }
  split; [|split].
  - intros s Hs. destruct s as [|c s1]; [reflexivity|].
    cbn [List.length] in Hs.
    cbn [parse_value]. pose proof (ws_length s1) as Hw.
    destruct (c =? 123)%N.
    { destruct (ws s1) as [|d s2] eqn:Ew; [reflexivity|]. cbn [List.length] in Hw.
      rewrite (IHm (d :: s2)) by (cbn [List.length]; lia). reflexivity. }
    destruct (c =? 91)%N; [|reflexivity].
    destruct (ws s1) as [|d s2] eqn:Ew; [reflexivity|]. cbn [List.length] in Hw.
    rewrite (IHe (d :: s2)) by (cbn [List.length]; lia). reflexivity.
  - intros s Hs. pose proof (ws_length s) as Hw.
    rewrite (elements_S (S fuel) s), (elements_S fuel s).
    rewrite (IHv (ws s)) by lia.
    destruct (parse_value fuel (ws s)) as [[v s1]|] eqn:Ev; [|reflexivity].
    apply (proj1 (parse_length fuel)) in Ev. pose proof (ws_length s1) as Hw1.
    destruct (ws s1) as [|c s2] eqn:Ew; [reflexivity|]. cbn [List.length] in Hw1.
    rewrite (IHe s2) by lia. reflexivity.
  - intros s Hs. pose proof (ws_length s) as Hw.
    rewrite (members_S (S fuel) s), (members_S fuel s).
    destruct (ws s) as [|q s1] eqn:Ew; [reflexivity|]. cbn [List.length] in Hw.
    destruct (q =? 34)%N; [|reflexivity].
    destruct (chars s1) as [[name s2]|] eqn:Ec; [|reflexivity].
    apply chars_length in Ec. pose proof (ws_length s2) as Hw2.
    destruct (ws s2) as [|colon s3] eqn:Ew2; [reflexivity|].
    cbn [List.length] in Hw2.
    destruct (colon =? 58)%N; [|reflexivity].
    pose proof (ws_length s3) as Hw3.
    rewrite (IHv (ws s3)) by lia.
    destruct (parse_value fuel (ws s3)) as [[v s4]|] eqn:Ev; [|reflexivity].
    apply (proj1 (parse_length fuel)) in Ev. pose proof (ws_length s4) as Hw4.
    destruct (ws s4) as [|c s5] eqn:Ew4; [reflexivity|]. cbn [List.length] in Hw4.
    rewrite (IHm s5) by lia. reflexivity.
Qed.

Lemma parse_value_fuel fuel extra s :
  2 * List.length s <= fuel ->
  parse_value (fuel + extra) s = parse_value fuel s.
Proof.
  intros Hs. induction extra as [|extra IH].
  - now rewrite Nat.add_0_r.
  - rewrite Nat.add_succ_r, <- IH.
    apply (proj1 (parse_fuel_step (fuel + extra))). lia.
Qed.

(** [JSON.parse] never fails for want of fuel: any larger amount gives the
    value, or the failure, that [parse] gives. *)
Lemma parse_fuel s extra :
  match parse_value (S (2 * List.length s) + extra) (ws s) with
  | Some (v, rest) => match ws rest with [] => Some v | _ :: _ => None end
  | None => None
  end = JSON.parse s.
Proof.
  unfold JSON.parse. rewrite parse_value_fuel; [reflexivity|].
  pose proof (ws_length s). lia.
Qed.

End Fuel.

(** ** Aborts and failed reads *)

Lemma read_loop_aborting_0 reason d buffer reads :
  read_loop_aborting reason 0 d buffer reads = catch reason.
Proof. destruct reads; reflexivity. Qed.

Lemma read_loop_aborting_value reason m d buffer value reads d' decoded front piece :
  TextDecoder.decode d value = (d', decoded) ->
  JsString.split (buffer ++ decoded) = front ++ [piece] ->
  read_loop_aborting reason (S m) d buffer (Value value :: reads) =
  let (cbs, returned) := for_lines front in
  if returned then (cbs, ReturnedOnDone)
  else after cbs (read_loop_aborting reason (S m - List.length cbs) d' piece reads).
Proof.
  intros Hd Hs. cbn [read_loop_aborting]. rewrite Hd, Hs, pop_snoc. reflexivity.
Qed.

(** Until the callback that aborts, the run is the run without abort. *)
Lemma read_loop_aborting_before reason pre :
  forall (n : nat) d buffer,
  snd (read_loop d buffer pre) = AwaitingRead ->
  (List.length (fst (read_loop d buffer pre)) < n)%nat ->
  exists d' buffer',
    (forall more, read_loop d buffer (pre ++ more) =
                  after (fst (read_loop d buffer pre)) (read_loop d' buffer' more)) /\
    (forall more, read_loop_aborting reason n d buffer (pre ++ more) =
                  after (fst (read_loop d buffer pre))
                    (read_loop_aborting reason
                       (n - List.length (fst (read_loop d buffer pre)))
                       d' buffer' more)).
Proof.
  induction pre as [|r pre IH]; intros n d buffer Hs Hn.
  - exists d, buffer. cbn [read_loop fst app List.length].
    rewrite Nat.sub_0_r. split; intros more; now rewrite after_nil.
  - destruct r as [value| |e].
    + destruct (TextDecoder.decode d value) as [d1 o1] eqn:Ev.
      destruct (split_snoc (buffer ++ o1)) as (front & piece & Es).
      destruct n as [|m]; [inversion Hn|].
      rewrite (read_loop_value _ _ _ _ _ _ _ _ Ev Es) in Hs, Hn |- *.
      assert (Hall : forall more,
                read_loop d buffer (Value value :: pre ++ more) =
                let (cbs, returned) := for_lines front in
                if returned then (cbs, ReturnedOnDone)
                else after cbs (read_loop d1 piece (pre ++ more)))
        by (intros more; apply (read_loop_value _ _ _ _ _ _ _ _ Ev Es)).
      assert (Hall' : forall more,
                read_loop_aborting reason (S m) d buffer (Value value :: pre ++ more) =
                let (cbs, returned) := for_lines front in
                if returned then (cbs, ReturnedOnDone)
                else after cbs
                       (read_loop_aborting reason (S m - List.length cbs)
                                           d1 piece (pre ++ more)))
        by (intros more; apply (read_loop_aborting_value _ _ _ _ _ _ _ _ _ _ Ev Es)).
      destruct (for_lines front) as [cbs [|]]; [discriminate Hs|].
      unfold after in Hs, Hn. cbn [fst snd] in Hs, Hn.
      rewrite length_app in Hn.
      assert (Hn' : (List.length (fst (read_loop d1 piece pre)) <
                     S m - List.length cbs)%nat) by lia.
      destruct (IH (S m - List.length cbs)%nat d1 piece Hs Hn')
        as (d' & b' & H1 & H2).
      exists d', b'. cbn [app].
      split; intros more.
      * rewrite Hall, H1. unfold after. cbn [fst snd]. now rewrite app_assoc.
      * rewrite Hall', H2. unfold after. cbn [fst snd].
        rewrite length_app, app_assoc, Nat.sub_add_distr. reflexivity.
    + discriminate Hs.
    + exfalso. revert Hs. cbn [read_loop]. unfold catch.
      destruct e as [err|]; [destruct (String.eqb (name err) "AbortError")|];
        discriminate.
Qed.

(** An abort made from inside a callback, while the chunk [c] is handled,
    comes to the same as the read after [c] rejecting with the reason. *)
Lemma abort_in_callback reason (n : nat) d buffer pre c rest :
  snd (read_loop d buffer pre) = AwaitingRead ->
  (List.length (fst (read_loop d buffer pre)) < n)%nat ->
  (n <= List.length (fst (read_loop d buffer (pre ++ [Value c]))))%nat ->
  read_loop_aborting reason n d buffer (pre ++ Value c :: rest) =
  read_loop d buffer (pre ++ [Value c; Rejected reason]).
Proof.
  intros Hs Hlo Hhi.
  destruct (read_loop_aborting_before reason pre n d buffer Hs Hlo)
    as (d' & b' & H1 & H2).
  rewrite H2, H1. rewrite H1 in Hhi. unfold after in Hhi. cbn [fst] in Hhi.
  rewrite length_app in Hhi. f_equal.
  set (k := (n - List.length (fst (read_loop d buffer pre)))%nat) in *.
  assert (Hk : (0 < k <= List.length (fst (read_loop d' b' [Value c])))%nat)
    by (unfold k; lia).
  clearbody k. clear - Hk.
  destruct k as [|m]; [lia|].
  destruct (TextDecoder.decode d' c) as [d1 o1] eqn:Ev.
  destruct (split_snoc (b' ++ o1)) as (front & piece & Es).
  rewrite (read_loop_aborting_value _ _ _ _ _ _ _ _ _ _ Ev Es).
  rewrite (read_loop_value _ _ _ [] _ _ _ _ Ev Es) in Hk.
  rewrite (read_loop_value _ _ _ [Rejected reason] _ _ _ _ Ev Es).
  destruct (for_lines front) as [cbs [|]]; [reflexivity|].
  unfold after in Hk. cbn [fst read_loop] in Hk. rewrite app_nil_r in Hk.
  replace (S m - List.length cbs)%nat with 0%nat by lia.
  now rewrite read_loop_aborting_0.
Qed.

Lemma streamProcure_aborting_ok reason n st reads :
  200 <= st <= 299 ->
  streamProcure_aborting reason n (response st reads) =
  read_loop_aborting reason n TextDecoder.init [] reads.
Proof.
  intros H. unfold streamProcure_aborting, response, ok. cbn [status body].
  destruct (N.leb_spec 200 st); [|lia].
  destruct (N.leb_spec st 299); [|lia]. reflexivity.
Qed.

(** The same, for [streamProcure]. *)
Lemma streamProcure_abort_in_callback reason (n : nat) st reads c rest :
  snd (streamProcure (response st reads)) = AwaitingRead ->
  (List.length (callbacks (streamProcure (response st reads))) < n)%nat ->
  (n <= List.length (callbacks (streamProcure (response st (reads ++ [Value c])))))%nat ->
  streamProcure_aborting reason n (response st (reads ++ Value c :: rest)) =
  streamProcure (response st (reads ++ [Value c; Rejected reason])).
Proof.
  destruct (streamProcure_response st reads) as [[Hok E]|[_ E]]; rewrite E;
    [|discriminate].
  rewrite !(streamProcure_ok _ _ Hok), (streamProcure_aborting_ok _ _ _ _ Hok).
  apply abort_in_callback.
Qed.

(** A rejection while a read is pending ends the run in the [catch]. *)
Lemma streamProcure_rejected st reads e rest :
  200 <= st <= 299 ->
  snd (streamProcure (response st reads)) = AwaitingRead ->
  streamProcure (response st (reads ++ Rejected e :: rest)) =
  after (callbacks (streamProcure (response st reads))) (catch e).
Proof.
  intros Hok Hs. rewrite !(streamProcure_ok _ _ Hok) in *.
  destruct (read_loop_app TextDecoder.init [] reads decoding_init no_LF_nil)
    as [[_ (d' & b' & _ & _ & Hm)]|[Hx _]]; [|congruence].
  now rewrite Hm.
Qed.

Lemma catch_error err :
  name err <> "AbortError"%string -> catch (Thrown err) = ([onError err], Caught).
Proof.
  intros H. unfold catch.
  destruct (String.eqb_spec (name err) "AbortError"); [contradiction|reflexivity].
Qed.

(** A read rejecting with the [AbortError] adds no callback. *)
Lemma abort_rejection_silent st reads msg rest :
  callbacks (streamProcure (response st (reads ++ Rejected (AbortError msg) :: rest))) =
  callbacks (streamProcure (response st reads)).
Proof.
  destruct (streamProcure_response st reads) as [[Hok ->]|[Hn ->]].
  - rewrite (streamProcure_ok _ _ Hok).
    destruct (read_loop_app TextDecoder.init [] reads decoding_init no_LF_nil)
      as [[_ (d' & b' & _ & _ & Hm)]|[_ Hm]]; rewrite Hm; [|reflexivity].
    unfold callbacks, after. cbn. apply app_nil_r.
  - destruct (streamProcure_response st (reads ++ Rejected (AbortError msg) :: rest))
      as [[Hok _]|[_ ->]]; [contradiction|reflexivity].
Qed.

(** The chunk in hand is handled to its end; what the rejection of the next
    read does depends on whether a [done] frame was in it. *)
Lemma run_after_chunk st reads c e :
  200 <= st <= 299 ->
  snd (streamProcure (response st reads)) = AwaitingRead ->
  let r1 := streamProcure (response st (reads ++ [Value c])) in
  let r := streamProcure (response st (reads ++ [Value c; Rejected e])) in
  (snd r1 = AwaitingRead /\ r = after (fst r1) (catch e) /\
   exists evs, fst r1 = map onEvent evs) \/
  (snd r1 = ReturnedOnDone /\ r = r1 /\
   exists evs, fst r1 = map onEvent evs ++ [onDone]).
Proof.
  intros Hok Hs. cbv zeta. rewrite !(streamProcure_ok _ _ Hok) in *.
  replace (reads ++ [Value c; Rejected e])
    with ((reads ++ [Value c]) ++ [Rejected e]) by (now rewrite <- app_assoc).
  destruct (read_loop_shape TextDecoder.init [] (reads ++ [Value c])) as (evs & Hshape).
  assert (Hex : snd (read_loop TextDecoder.init [] (reads ++ [Value c])) = AwaitingRead \/
                snd (read_loop TextDecoder.init [] (reads ++ [Value c])) = ReturnedOnDone).
  { destruct (read_loop_app TextDecoder.init [] reads decoding_init no_LF_nil)
      as [[_ (d' & b' & _ & _ & Hm)]|[Hx _]]; [|congruence].
    rewrite Hm. unfold after. cbn [snd].
    apply (read_loop_chunks_exit d' b' [c]). }
  destruct (read_loop_app TextDecoder.init [] (reads ++ [Value c])
              decoding_init no_LF_nil) as [[Hs1 (d' & b' & _ & _ & Hm)]|[Hs1 Hm]].
  - left. split; [exact Hs1|]. split; [now rewrite Hm|].
    exists evs. destruct (read_loop _ _ (reads ++ [Value c])) as [cbs ex].
    cbn [fst snd] in *. now subst ex.
  - right. destruct Hex as [Hex|Hex]; [contradiction|].
    split; [exact Hex|]. split; [apply Hm|].
    exists evs. destruct (read_loop _ _ (reads ++ [Value c])) as [cbs ex].
    cbn [fst snd] in *. now subst ex.
Qed.

(** * Runs *)

Example scenario_C :
  streamProcure (response 200 [Value thought; Value (action ++ summary);
                               Value finished; Done]) =
  ([onEvent thought_event; onEvent action_event; onEvent summary_event; onDone],
   ReturnedOnDone).
Proof. reflexivity. Qed.

(** A frame cut inside a three-byte character: the euro sign E2 82 AC. *)
Example cut_inside_a_character :
  streamProcure (response 200
    [Value (wire "data: {'event': 'result', 'data': '" ++ [xe2; x82]);
     Value ([xac] ++ wire "9'}" ++ [x0a])]) =
  ([onEvent (JObject [(lit "event", JString (lit "result"));
                      (lit "data", JString [8364; 57])])],
   AwaitingRead).
Proof. reflexivity. Qed.

(** Any JSON value but [null] is handed on, whatever its shape; a line
    without the marker, an empty payload and [null] are passed over. *)
Example payloads :
  streamProcure (response 200
    [Value (frame "data: 5" ++ frame "data: null" ++ frame "data:   " ++
            frame ": keep-alive" ++ frame "data: [1, 2]"); Done]) =
  ([onEvent (JNumber (lit "5"));
    onEvent (JArray [JNumber (lit "1"); JNumber (lit "2")]); onDone],
   EndOfStream).
Proof. reflexivity. Qed.

(** A failed read is not a close: it is reported through [onError]. *)
Example network_failure :
  streamProcure (response 200
    [Value thought; Rejected (Thrown (Error "TypeError" "network error"))]) =
  ([onEvent thought_event; onError (Error "TypeError" "network error")], Caught).
Proof. reflexivity. Qed.

(** With its line feed the last frame is delivered; without it, it is not. *)
Example last_line_feed :
  streamProcure (response 200
    [Value thought;
     Value (wire "data: {'event': 'summary', 'data': {'total': 120}}" ++ [x0a]);
     Done]) =
  ([onEvent thought_event; onEvent summary_event; onDone], EndOfStream).
Proof. reflexivity. Qed.

(** * The claims *)

(** ** Chunks, at the level of [streamProcure] *)

Lemma streamProcure_concat st chunks rest :
  streamProcure (response st (map Value chunks ++ rest)) =
  streamProcure (response st (Value (List.concat chunks) :: rest)).
Proof.
  destruct (streamProcure_response st (map Value chunks ++ rest)) as [[Hok ->]|[Hn ->]];
    destruct (streamProcure_response st (Value (List.concat chunks) :: rest))
      as [[Hok' ->]|[Hn' ->]]; try contradiction.
  - apply read_loop_concat, no_LF_nil.
  - reflexivity.
Qed.

(** A stream whose text so far ends with a [done] frame makes the loop leave
    through line 110. *)
Lemma done_frame_returns st head before d :
  200 <= st <= 299 ->
  decoded head = unlines (before ++ [d]) ->
  Forall is_line (before ++ [d]) ->
  done_frame d ->
  snd (streamProcure (response st [Value head])) = ReturnedOnDone.
Proof.
  intros Hok Htext Hlines Hd. rewrite (streamProcure_ok _ _ Hok).
  unfold decoded in Htext.
  destruct (TextDecoder.decode TextDecoder.init head) as [d' out] eqn:Ed.
  cbn [snd] in Htext.
  assert (Es : JsString.split ([] ++ out) = (before ++ [d]) ++ [[]])
    by (cbn [app]; rewrite Htext; now apply split_unlines).
  rewrite (read_loop_value _ _ _ _ _ _ _ _ Ed Es), for_lines_app.
  destruct (for_lines before) as [cbs [|]]; [reflexivity|].
  cbn [for_lines]. now rewrite (on_line_done _ Hd).
Qed.

(** C1: however the bytes of the stream are cut into chunks, also in the
    middle of a frame, a line or a character, [streamProcure] makes the same
    callbacks in the same order and leaves the same way as when the stream is
    read in a single chunk; [rest] is what the transport does afterwards. *)
Theorem chunk_boundaries_do_not_matter
    (st : N) (chunks : list (list byte)) (rest : list read_result) :
  streamProcure (response st (map Value chunks ++ rest)) =
  streamProcure (response st (Value (List.concat chunks) :: rest)).
Proof. apply streamProcure_concat. Qed.

(** C2: once the bytes [head] read so far have made the decoder parse a
    [done] frame (the return of line 110), it has called [onDone] once, as
    its last callback, after events only; and the run is over: the bytes
    [tail] that follow in the stream, however the whole is cut into chunks,
    and whatever the transport does later ([rest]: more data, a close, a
    failure, nothing) change nothing. *)
Theorem done_frame_ends_the_run
    (st : N) (head tail : list byte) (chunks : list (list byte))
    (rest : list read_result) :
  snd (streamProcure (response st [Value head])) = ReturnedOnDone ->
  List.concat chunks = head ++ tail ->
  streamProcure (response st (map Value chunks ++ rest)) =
    streamProcure (response st [Value head]) /\
  exists evs,
    callbacks (streamProcure (response st [Value head])) = map onEvent evs ++ [onDone].
Proof.
  intros Hdone Hcat.
  rewrite streamProcure_concat, Hcat.
  destruct (streamProcure_response st [Value head]) as [[Hok E]|[_ E]];
    rewrite E in *; [|discriminate].
  rewrite (streamProcure_ok _ _ Hok).
  split.
  - rewrite <- read_loop_merge.
    change (Value head :: Value tail :: rest)
      with ([Value head] ++ Value tail :: rest).
    destruct (read_loop_app TextDecoder.init [] [Value head] decoding_init no_LF_nil)
      as [[Hs _]|[_ Hm]]; [congruence | apply Hm].
  - destruct (read_loop_shape TextDecoder.init [] [Value head]) as (evs & H).
    destruct (read_loop _ _ _) as [cbs ex]. cbn [snd] in Hdone. subst ex.
    now exists evs.
Qed.

Lemma done_frame_ends_the_run_witness :
  snd (streamProcure (response 200 [Value (thought ++ finished)])) = ReturnedOnDone /\
  streamProcure (response 200
    (map Value [thought; finished ++ summary] ++ [Value action; Done])) =
    ([onEvent thought_event; onDone], ReturnedOnDone).
Proof.
  split; [reflexivity|].
  exact (proj1 (done_frame_ends_the_run 200 (thought ++ finished) summary
                  [thought; finished ++ summary] [Value action; Done]
                  eq_refl eq_refl)).
Defined.

(** C3: a stream whose text is a valid frame, malformed lines, a second valid
    frame (and malformed lines after it, such as the blank line that ends a
    frame), cut into chunks in any way, makes [streamProcure] hand exactly
    the two events to [onEvent], in order; the malformed lines leave no trace
    and [onError] is not called, neither while the stream is open nor when it
    closes. *)
Theorem malformed_lines_are_skipped
    (st : N) (chunks : list (list byte)) (l1 l2 : jsstring)
    (junk1 junk2 : list jsstring) (v1 v2 : JSON.value) :
  200 <= st <= 299 ->
  decoded (List.concat chunks) = unlines (l1 :: junk1 ++ l2 :: junk2) ->
  Forall is_line (l1 :: junk1 ++ l2 :: junk2) ->
  event_frame l1 v1 -> event_frame l2 v2 ->
  Forall malformed junk1 -> Forall malformed junk2 ->
  streamProcure (response st (map Value chunks)) =
    ([onEvent v1; onEvent v2], AwaitingRead) /\
  streamProcure (response st (map Value chunks ++ [Done])) =
    ([onEvent v1; onEvent v2; onDone], EndOfStream).
Proof.
  intros Hok Htext Hlines H1 H2 Hj1 Hj2.
  assert (Hloop : forall rest,
    streamProcure (response st (map Value chunks ++ rest)) =
    after [onEvent v1; onEvent v2]
      (read_loop (fst (TextDecoder.decode TextDecoder.init (List.concat chunks))) [] rest)).
  { intros rest. rewrite streamProcure_concat, (streamProcure_ok _ _ Hok).
    unfold decoded in Htext.
    destruct (TextDecoder.decode TextDecoder.init (List.concat chunks)) as [d' out] eqn:Ed.
    cbn [fst snd] in *.
    assert (Es : JsString.split ([] ++ out) = (l1 :: junk1 ++ l2 :: junk2) ++ [[]])
      by (cbn [app]; rewrite Htext; now apply split_unlines).
    rewrite (read_loop_value _ _ _ _ _ _ _ _ Ed Es).
    cbn [for_lines]. rewrite (on_line_event _ _ H1).
    rewrite (for_lines_malformed _ _ Hj1). cbn [for_lines].
    rewrite (on_line_event _ _ H2).
    rewrite <- (app_nil_r junk2), (for_lines_malformed _ _ Hj2). reflexivity. }
  split.
  - rewrite <- (app_nil_r (map Value chunks)). rewrite Hloop. reflexivity.
  - rewrite Hloop. reflexivity.
Qed.

Lemma malformed_lines_are_skipped_witness :
  streamProcure (response 200
    (map Value [wire "data: {'event': 'thought', 'da"; wire "ta': 1}" ++ [x0a; x0a];
                wire "data: {'event': oops" ++ [x0a] ++ action])) =
    ([onEvent (parsed_of "{'event': 'thought', 'data': 1}"); onEvent action_event],
     AwaitingRead).
Proof.
  refine (proj1 (malformed_lines_are_skipped 200 _
            (text "data: {'event': 'thought', 'data': 1}")
            (text "data: {'event': 'action', 'data': 'search'}")
            [[]; text "data: {'event': oops"] [[]]
            (parsed_of "{'event': 'thought', 'data': 1}") action_event
            _ _ _ _ _ _ _)).
  - lia.
  - reflexivity.
  - repeat constructor; unfold is_line, LF; cbn;
      repeat (intros [H|H]; [discriminate H|revert H]); intros [].
  - split; [reflexivity|split; [reflexivity|split; [discriminate|reflexivity]]].
  - split; [reflexivity|split; [reflexivity|split; [discriminate|reflexivity]]].
  - constructor; [left; reflexivity|].
    constructor; [right; left; reflexivity|constructor].
  - constructor; [left; reflexivity|constructor].
Defined.

(** C4, as the code has it: when the transport closes, a read settling
    with [done: true], and no [done] frame has been parsed in the chunks
    read before, [streamProcure] calls [onDone] after the callbacks made so
    far and ends there, with no [onError].  When the transport fails
    instead, a read rejecting with an error such as a network failure, the
    error is handed to [onError] and [onDone] is not called. *)
Theorem close_without_done_completes
    (st : N) (chunks : list (list byte)) (rest : list read_result) (err : error) :
  200 <= st <= 299 ->
  snd (streamProcure (response st (map Value chunks))) <> ReturnedOnDone ->
  name err <> "AbortError"%string ->
  (streamProcure (response st (map Value chunks ++ Done :: rest)) =
     (callbacks (streamProcure (response st (map Value chunks))) ++ [onDone],
      EndOfStream) /\
   forall e,
     ~ In (onError e)
          (callbacks (streamProcure (response st (map Value chunks ++ Done :: rest))))) /\
  (streamProcure (response st (map Value chunks ++ Rejected (Thrown err) :: rest)) =
     (callbacks (streamProcure (response st (map Value chunks))) ++ [onError err],
      Caught) /\
   ~ In onDone
        (callbacks (streamProcure
           (response st (map Value chunks ++ Rejected (Thrown err) :: rest))))).
Proof.
  intros Hok Hnot Hname.
  assert (Hs : snd (streamProcure (response st (map Value chunks))) = AwaitingRead).
  { rewrite (streamProcure_ok _ _ Hok) in *.
    destruct (read_loop_chunks_exit TextDecoder.init [] chunks); congruence. }
  assert (Hev : exists evs,
            callbacks (streamProcure (response st (map Value chunks))) = map onEvent evs).
  { rewrite (streamProcure_ok _ _ Hok) in *.
    destruct (read_loop_shape TextDecoder.init [] (map Value chunks)) as (evs & H).
    exists evs. unfold callbacks.
    destruct (read_loop _ _ (map Value chunks)) as [cbs ex].
    cbn [fst snd] in *. now subst ex. }
  destruct Hev as (evs & Hev).
  split.
  - assert (E : streamProcure (response st (map Value chunks ++ Done :: rest)) =
                (callbacks (streamProcure (response st (map Value chunks))) ++ [onDone],
                 EndOfStream)).
    { rewrite !(streamProcure_ok _ _ Hok) in *.
      destruct (read_loop_app TextDecoder.init [] (map Value chunks)
                  decoding_init no_LF_nil) as [[_ (d' & b' & _ & _ & Hm)]|[Hx _]];
        [|congruence].
      now rewrite Hm. }
    split; [exact E|]. intros e Hin. rewrite E, Hev in Hin. cbn [callbacks fst] in Hin.
    apply in_app_or in Hin as [Hin|[Hin|[]]]; [|discriminate].
    apply in_map_iff in Hin as (ev & Hev' & _). discriminate.
  - rewrite (streamProcure_rejected _ _ _ _ Hok Hs), (catch_error _ Hname).
    split; [reflexivity|]. unfold after. cbn [callbacks fst snd]. rewrite Hev.
    intros Hin. apply in_app_or in Hin as [Hin|[Hin|[]]]; [|discriminate].
    apply in_map_iff in Hin as (ev & Hev' & _). discriminate.
Qed.

Lemma close_without_done_completes_witness :
  streamProcure (response 200 (map Value [thought; action] ++ [Done])) =
    ([onEvent thought_event; onEvent action_event; onDone], EndOfStream) /\
  streamProcure (response 200
    (map Value [thought; action] ++
     [Rejected (Thrown (Error "TypeError" "network error"))])) =
    ([onEvent thought_event; onEvent action_event;
      onError (Error "TypeError" "network error")], Caught).
Proof.
  pose proof (close_without_done_completes 200 [thought; action] []
                (Error "TypeError" "network error")) as H.
  destruct H as [[H1 _] [H2 _]].
  - lia.
  - discriminate.
  - discriminate.
  - split; [exact H1|exact H2].
Defined.

(** C4, as stated, fails when the transport closes by failing: the read
    rejects, the error goes to [onError], and [onDone] is not called. *)
Lemma failed_read_is_not_a_completion :
  streamProcure (response 200
    [Value thought; Rejected (Thrown (Error "TypeError" "network error"))]) =
    ([onEvent thought_event; onError (Error "TypeError" "network error")], Caught) /\
  ~ In onDone
       (callbacks (streamProcure (response 200
          [Value thought; Rejected (Thrown (Error "TypeError" "network error"))]))).
Proof.
  split; [reflexivity|]. intros [H|[H|[]]]; discriminate H.
Qed.

(** C6, as the code has it.  An abort made with no reason while the fetch or
    a read is pending rejects it with the [AbortError], and no callback is
    made from then on, [onError] included.  An abort made from inside the
    [n]-th callback, while the chunk [c] is handled, does not stop the loop
    over that chunk: the callbacks for its remaining lines are still made,
    but none for anything after the chunk, and none for the abort.  An abort
    whose reason is an [Error] of another name rejects the read with that
    reason, which is handed to [onError]. *)
Theorem abort_adds_no_callback
    (st : N) (reads : list read_result) (msg : string) (rest : list read_result)
    (c : list byte) (n : nat) (err : error) :
  (callbacks (streamProcure (response st (reads ++ Rejected (AbortError msg) :: rest))) =
     callbacks (streamProcure (response st reads)) /\
   streamProcure (Failed (AbortError msg)) = ([], Caught)) /\
  (snd (streamProcure (response st reads)) = AwaitingRead ->
   (List.length (callbacks (streamProcure (response st reads))) < n <=
    List.length (callbacks (streamProcure (response st (reads ++ [Value c])))))%nat ->
   callbacks (streamProcure_aborting (AbortError msg) n
                (response st (reads ++ Value c :: rest))) =
   callbacks (streamProcure (response st (reads ++ [Value c])))) /\
  (200 <= st <= 299 ->
   snd (streamProcure (response st reads)) = AwaitingRead ->
   name err <> "AbortError"%string ->
   streamProcure (response st (reads ++ Rejected (Thrown err) :: rest)) =
     (callbacks (streamProcure (response st reads)) ++ [onError err], Caught)).
Proof.
  split; [split; [apply abort_rejection_silent|reflexivity]|]. split.
  - intros Hs [Hlo Hhi].
    rewrite (streamProcure_abort_in_callback _ _ _ _ _ _ Hs Hlo Hhi).
    replace (reads ++ [Value c; Rejected (AbortError msg)])
      with ((reads ++ [Value c]) ++ Rejected (AbortError msg) :: [])
      by (now rewrite <- app_assoc).
    apply abort_rejection_silent.
  - intros Hok Hs Hname.
    now rewrite (streamProcure_rejected _ _ _ _ Hok Hs), (catch_error _ Hname).
Qed.

Lemma abort_adds_no_callback_witness :
  callbacks (streamProcure_aborting (AbortError "The user aborted a request.") 2
               (response 200 ([Value thought] ++ Value (action ++ summary) ::
                              [Value finished; Done]))) =
  [onEvent thought_event; onEvent action_event; onEvent summary_event].
Proof.
  refine (proj1 (proj2 (abort_adds_no_callback 200 [Value thought]
            "The user aborted a request." [Value finished; Done]
            (action ++ summary) 2 (Error "Error" ""))) _ _).
  - reflexivity.
  - cbn. lia.
Defined.

(** C6, as stated, fails for an abort made from inside a callback, and for
    an abort that carries a reason: aborting inside the first [onEvent] of
    a chunk that holds two frames is followed by the second [onEvent]; and
    aborting there with an [Error] as reason ends in [onError] with it. *)
Lemma abort_inside_a_callback_is_followed_by_callbacks :
  streamProcure_aborting (AbortError "The user aborted a request.") 1
    (response 200 [Value (thought ++ action); Value summary; Done]) =
    ([onEvent thought_event; onEvent action_event], Caught) /\
  streamProcure_aborting (Thrown (Error "TimeoutError" "too slow")) 1
    (response 200 [Value thought; Value summary; Done]) =
    ([onEvent thought_event; onError (Error "TimeoutError" "too slow")], Caught).
Proof. split; reflexivity. Qed.

(** C5, as the code has it: an abort made with no reason after some events
    calls no [onError] and lets nothing be handled that comes after it.
    Made while a read is pending, as [stop] does, it ends the run in the
    [catch] with no callback at all: no further event and no [onDone]; in
    the component [stop] clears [running] itself and [done] stays [false].
    Made from inside the [n]-th callback, while the chunk [c] is handled, it
    lets the loop finish that chunk: its remaining events are still handed
    on, and [onDone] is called exactly when a [done] frame is among its
    lines; otherwise the run ends in the [catch], without [onDone]. *)
Theorem abort_ends_without_completion
    (st : N) (reads : list read_result) (msg : string) (rest : list read_result)
    (c : list byte) (n : nat) :
  200 <= st <= 299 ->
  snd (streamProcure (response st reads)) = AwaitingRead ->
  (exists evs,
     streamProcure (response st (reads ++ Rejected (AbortError msg) :: rest)) =
       (map onEvent evs, Caught) /\
     callbacks (streamProcure (response st reads)) = map onEvent evs /\
     AgentStream.stop (AgentStream.deliver_all AgentStream.start (map onEvent evs)) =
       {| AgentStream.events := evs; AgentStream.running := false;
          AgentStream.done := false |}) /\
  ((List.length (callbacks (streamProcure (response st reads))) < n <=
    List.length (callbacks (streamProcure (response st (reads ++ [Value c])))))%nat ->
   let r1 := streamProcure (response st (reads ++ [Value c])) in
   let r := streamProcure_aborting (AbortError msg) n
              (response st (reads ++ Value c :: rest)) in
   (snd r1 = AwaitingRead /\ r = (fst r1, Caught) /\
    exists evs, fst r1 = map onEvent evs) \/
   (snd r1 = ReturnedOnDone /\ r = r1 /\
    exists evs, fst r1 = map onEvent evs ++ [onDone])).
Proof.
  intros Hok Hs. split.
  - rewrite (streamProcure_rejected _ _ _ _ Hok Hs).
    rewrite !(streamProcure_ok _ _ Hok) in *.
    destruct (read_loop_shape TextDecoder.init [] reads) as (evs & H).
    destruct (read_loop _ _ reads) as [cbs ex].
    cbn [fst snd callbacks] in *. subst ex cbs.
    exists evs. split; [|split; [reflexivity|]].
    + unfold after. cbn. now rewrite app_nil_r.
    + now rewrite deliver_events.
  - intros [Hlo Hhi]. cbv zeta.
    rewrite (streamProcure_abort_in_callback _ _ _ _ _ _ Hs Hlo Hhi).
    destruct (run_after_chunk st reads c (AbortError msg) Hok Hs)
      as [(H1 & H2 & H3)|(H1 & H2 & H3)]; [left|right].
    + split; [exact H1|]. split; [|exact H3].
      rewrite H2. unfold after. cbn. now rewrite app_nil_r.
    + split; [exact H1|]. split; [exact H2|exact H3].
Qed.

Lemma abort_ends_without_completion_witness :
  snd (streamProcure (response 200 [Value thought])) = AwaitingRead /\
  exists evs,
    streamProcure scenario_D = (map onEvent evs, Caught) /\
    callbacks (streamProcure (response 200 [Value thought])) = map onEvent evs /\
    AgentStream.stop (AgentStream.deliver_all AgentStream.start (map onEvent evs)) =
      {| AgentStream.events := evs; AgentStream.running := false;
         AgentStream.done := false |}.
Proof.
  split; [reflexivity|].
  apply (proj1 (abort_ends_without_completion 200 [Value thought]
           "The user aborted a request." [] action 2 ltac:(lia) eq_refl)).
Defined.

(** C5, as stated, fails in scenario D: after the abort the only callback
    made is the [thought] event; [onDone] is not called, and the component's
    [done] flag is not set. *)
Lemma scenario_D_signals_no_completion :
  streamProcure scenario_D = ([onEvent thought_event], Caught) /\
  ~ In onDone (callbacks (streamProcure scenario_D)) /\
  AgentStream.done
    (AgentStream.stop
       (AgentStream.deliver_all AgentStream.start
          (callbacks (streamProcure scenario_D)))) = false.
Proof.
  split; [reflexivity|]. split; [|reflexivity].
  intros [H|[]]. discriminate H.
Qed.

(** C7: a response whose status is not in 200..299 is thrown before any read:
    [streamProcure] calls [onError] once, with an [Error] whose message
    carries the status, and makes no other callback. *)
Theorem non_2xx_is_a_hard_failure (res : Response) :
  ~ 200 <= status res <= 299 ->
  streamProcure (Resolved res) =
    ([onError (Error "Error"
                 ("SSE error: " ++ NilEmpty.string_of_uint (N.to_uint (status res))))],
     Caught).
Proof.
  intros H. unfold streamProcure, ok.
  destruct (N.leb_spec 200 (status res)); destruct (N.leb_spec (status res) 299);
    cbn [andb]; try lia; reflexivity.
Qed.

Lemma non_2xx_is_a_hard_failure_witness :
  streamProcure (response 503 [Value thought; Value finished; Done]) =
    ([onError (Error "Error" "SSE error: 503")], Caught).
Proof.
  apply (non_2xx_is_a_hard_failure
           {| status := 503; body := Some [Value thought; Value finished; Done] |}).
  cbn. lia.
Defined.

(** C9: whatever the fetch and the reads settle to, no value handed to
    [onEvent] has [event] equal to ["done"] (nor is it [null]). *)
Theorem done_is_never_an_event (fetched : fetch_result) :
  Forall deliverable (callbacks (streamProcure fetched)).
Proof.
  assert (Hcatch : forall e, Forall deliverable (fst (catch e))).
  { intros [err|]; cbn; [destruct (String.eqb (name err) "AbortError")|];
      cbn; repeat constructor. }
  assert (Hfor : forall lines, Forall deliverable (fst (for_lines lines))).
  { induction lines as [|l lines IH]; cbn [for_lines]; [constructor|].
    destruct (on_line l) as [|parsed|] eqn:E; [exact IH| |repeat constructor].
    destruct (for_lines lines) as [cbs r]. cbn [fst] in *.
    constructor; [|exact IH]. apply on_line_emit in E. cbn. tauto. }
  assert (Hloop : forall reads d buffer,
            Forall deliverable (fst (read_loop d buffer reads))).
  { induction reads as [|r reads IH]; intros d buffer; [constructor|].
    destruct r as [value| |e]; cbn [read_loop].
    - destruct (TextDecoder.decode d value) as [d1 o1].
      destruct (JsString.pop _) as [last lines].
      specialize (Hfor lines).
      destruct (for_lines lines) as [cbs [|]]; [exact Hfor|].
      unfold after. cbn [fst] in *. apply Forall_app. split; [exact Hfor|apply IH].
    - repeat constructor.
    - apply Hcatch. }
  unfold callbacks, streamProcure.
  destruct fetched as [|res|e]; [constructor| |apply Hcatch].
  destruct (ok res); [|apply Hcatch].
  destruct (body res); [apply Hloop|apply Hcatch].
Qed.

(** C10: bytes that reach the decoder after the last line feed, and so stay
    in its buffer as an unterminated line, are never parsed: when the
    transport then closes, [streamProcure] does exactly what it does when
    those bytes are not sent at all, a well-formed frame among them
    included. *)
Theorem unterminated_last_line_is_dropped
    (st : N) (chunks : list (list byte)) (residual : list byte)
    (rest : list read_result) :
  ~ In x0a residual ->
  streamProcure (response st (map Value chunks ++ Value residual :: Done :: rest)) =
  streamProcure (response st (map Value chunks ++ Done :: rest)).
Proof.
  intros Hres.
  destruct (streamProcure_response st (map Value chunks ++ Done :: rest))
    as [[Hok ->]|[Hn ->]].
  - rewrite (streamProcure_ok _ _ Hok).
    destruct (read_loop_app TextDecoder.init [] (map Value chunks)
                decoding_init no_LF_nil) as [[_ (d' & b' & Hd' & Hb' & Hm)]|[_ Hm]];
      rewrite !Hm; [|reflexivity].
    f_equal.
    pose proof (decode_no_LF d' residual Hd' Hres) as Hout.
    destruct (TextDecoder.decode d' residual) as [d'' out] eqn:Ed. cbn [snd] in Hout.
    assert (Es : JsString.split (b' ++ out) = [] ++ [b' ++ out]).
    { apply split_no_LF. intros Hin. apply in_app_or in Hin. tauto. }
    rewrite (read_loop_value _ _ _ _ _ _ _ _ Ed Es). reflexivity.
  - destruct (streamProcure_response st
                (map Value chunks ++ Value residual :: Done :: rest))
      as [[Hok _]|[_ ->]]; [contradiction|reflexivity].
Qed.

Lemma unterminated_last_line_is_dropped_witness :
  ~ In x0a (wire "data: {'event': 'summary', 'data': {'total': 120}}") /\
  streamProcure (response 200
    (map Value [thought] ++
     [Value (wire "data: {'event': 'summary', 'data': {'total': 120}}"); Done])) =
    ([onEvent thought_event; onDone], EndOfStream).
Proof.
  assert (H : ~ In x0a (wire "data: {'event': 'summary', 'data': {'total': 120}}")).
  { cbn. repeat (intros [H|H]; [discriminate H|revert H]). intros []. }
  split; [exact H|].
  exact (unterminated_last_line_is_dropped 200 [thought] _ [] H).
Defined.

(** C8: while the viewer polls a job, its effect schedules a status request
    exactly when the latest snapshot is [pending] or [processing]; and once a
    snapshot [j] that is [done] or [failed] has come in, polling is off, the
    effect schedules nothing, and the requests made are those made up to
    that snapshot, whatever replies [more] might have followed. *)
Theorem polling_stops_at_terminal_status
    (s : DesignViewer.state) (job j : DesignViewer.RenderJobResponse)
    (replies more : list DesignViewer.reply) :
  DesignViewer.polling s = true ->
  DesignViewer.renderJob s = Some job ->
  DesignViewer.status j = DesignViewer.done \/
  DesignViewer.status j = DesignViewer.failed ->
  (DesignViewer.effect s = DesignViewer.Schedule (DesignViewer.job_id job) <->
   DesignViewer.status job = DesignViewer.pending \/
   DesignViewer.status job = DesignViewer.processing) /\
  let r := DesignViewer.poll s (replies ++ DesignViewer.Snapshot j :: more) in
  DesignViewer.polling (snd r) = false /\
  DesignViewer.effect (snd r) = DesignViewer.Nothing /\
  DesignViewer.poll s (replies ++ [DesignViewer.Snapshot j]) = r.
Proof.
  intros Hp Hjob Hj. split.
  - unfold DesignViewer.effect, DesignViewer.terminal. rewrite Hp, Hjob.
    destruct (DesignViewer.status job); split;
      solve [ intros; discriminate | intros [|]; discriminate | auto ].
  - apply poll_terminal.
    + right. rewrite Hjob. discriminate.
    + unfold DesignViewer.terminal. now destruct Hj as [-> | ->].
Qed.

Lemma polling_stops_at_terminal_status_witness :
  let job s := {| DesignViewer.job_id := "job-1"%string; DesignViewer.status := s |} in
  DesignViewer.poll (DesignViewer.started (job DesignViewer.pending))
    ([DesignViewer.Snapshot (job DesignViewer.pending);
      DesignViewer.Snapshot (job DesignViewer.processing)] ++
     DesignViewer.Snapshot (job DesignViewer.done) ::
     [DesignViewer.Snapshot (job DesignViewer.processing)]) =
  (["job-1"; "job-1"; "job-1"]%string,
   {| DesignViewer.polling := false;
      DesignViewer.renderJob := Some (job DesignViewer.done) |}).
Proof.
  intros job.
  pose proof (polling_stops_at_terminal_status
    (DesignViewer.started (job DesignViewer.pending))
    (job DesignViewer.pending) (job DesignViewer.done)
    [DesignViewer.Snapshot (job DesignViewer.pending);
     DesignViewer.Snapshot (job DesignViewer.processing)]
    [DesignViewer.Snapshot (job DesignViewer.processing)]
    eq_refl eq_refl (or_introl eq_refl)) as (_ & _ & _ & H).
  rewrite <- H. reflexivity.
Defined.

(** * Further properties of [streamProcure] *)

Lemma on_line_blank : on_line [] = Skip.
Proof. reflexivity. Qed.

Lemma for_lines_framed ls vs lines :
  Forall2 event_frame ls vs ->
  for_lines (framed ls ++ lines) =
  let (cbs, returned) := for_lines lines in (map onEvent vs ++ cbs, returned).
Proof.
  induction 1 as [|l v ls vs Hl _ IH].
  - cbn. now destruct (for_lines lines).
  - unfold framed in *. cbn [map List.concat app for_lines].
    rewrite (on_line_event _ _ Hl), on_line_blank, IH.
    now destruct (for_lines lines).
Qed.

Lemma framed_lines ls : Forall is_line ls -> Forall is_line (framed ls).
Proof.
  induction 1 as [|l ls Hl _ IH]; [constructor|].
  unfold framed in *. cbn [map List.concat app].
  constructor; [exact Hl|]. constructor; [exact no_LF_nil|exact IH].
Qed.

Lemma framed_app ls1 ls2 : framed (ls1 ++ ls2) = framed ls1 ++ framed ls2.
Proof. unfold framed. now rewrite map_app, concat_app. Qed.

(** The callbacks made so far are never taken back: what the transport does
    next can only add callbacks after them. *)
Theorem callbacks_only_grow (st : N) (reads more : list read_result) :
  exists later,
    callbacks (streamProcure (response st (reads ++ more))) =
    callbacks (streamProcure (response st reads)) ++ later.
Proof.
  destruct (streamProcure_response st reads) as [[Hok ->]|[Hn ->]].
  - rewrite (streamProcure_ok _ _ Hok).
    destruct (read_loop_app TextDecoder.init [] reads decoding_init no_LF_nil)
      as [[_ (d' & b' & _ & _ & Hm)]|[_ Hm]]; rewrite Hm.
    + now exists (fst (read_loop d' b' more)).
    + exists []. now rewrite app_nil_r.
  - destruct (streamProcure_response st (reads ++ more)) as [[Hok _]|[_ ->]];
      [contradiction|].
    now exists [].
Qed.

(** Once a read has settled with [done: true] or has rejected, no later read
    is looked at. *)
Theorem nothing_is_read_after_the_end
    (st : N) (reads rest : list read_result) :
  streamProcure (response st (reads ++ Done :: rest)) =
    streamProcure (response st (reads ++ [Done])) /\
  forall e,
    streamProcure (response st (reads ++ Rejected e :: rest)) =
    streamProcure (response st (reads ++ [Rejected e])).
Proof.
  assert (H : forall r, (forall v, r <> Value v) ->
    streamProcure (response st (reads ++ r :: rest)) =
    streamProcure (response st (reads ++ [r]))).
  { intros r Hr.
    destruct (streamProcure_response st (reads ++ [r])) as [[Hok ->]|[Hn ->]].
    - rewrite (streamProcure_ok _ _ Hok).
      destruct (read_loop_app TextDecoder.init [] reads decoding_init no_LF_nil)
        as [[_ (d' & b' & _ & _ & Hm)]|[_ Hm]]; rewrite !Hm; [|reflexivity].
      f_equal. destruct r as [v| |e]; [now destruct (Hr v)|reflexivity|reflexivity].
    - destruct (streamProcure_response st (reads ++ r :: rest)) as [[Hok _]|[_ ->]];
        [contradiction|reflexivity]. }
  split; [apply H; discriminate|].
  intros e. apply H. discriminate.
Qed.

(** Data alone never raises an error: whatever bytes arrive, well-formed
    UTF-8 or not, frames or not, the run goes on awaiting the next read or
    has returned on a [done] frame, and [onError] has not been called. *)
Theorem data_never_raises_an_error (st : N) (chunks : list (list byte)) :
  200 <= st <= 299 ->
  let r := streamProcure (response st (map Value chunks)) in
  (snd r = AwaitingRead \/ snd r = ReturnedOnDone) /\
  forall err, ~ In (onError err) (callbacks r).
Proof.
  intros Hok. cbv zeta. rewrite (streamProcure_ok _ _ Hok).
  pose proof (read_loop_chunks_exit TextDecoder.init [] chunks) as Hex.
  split; [exact Hex|]. intros err Hin.
  destruct (read_loop_shape TextDecoder.init [] (map Value chunks)) as (evs & H).
  unfold callbacks in Hin.
  destruct (read_loop _ _ (map Value chunks)) as [cbs ex]. cbn [fst snd] in *.
  destruct Hex as [-> | ->]; subst cbs.
  - apply in_map_iff in Hin as (ev & Hev & _). discriminate.
  - apply in_app_or in Hin as [Hin|[Hin|[]]]; [|discriminate].
    apply in_map_iff in Hin as (ev & Hev & _). discriminate.
Qed.

Lemma data_never_raises_an_error_witness :
  streamProcure (response 200
    (map Value [[xff; xfe; x0a]; wire "data: {not json" ++ [xc3; x0a]; thought])) =
  ([onEvent thought_event], AwaitingRead) /\
  forall err,
    ~ In (onError err)
         (callbacks (streamProcure (response 200
            (map Value [[xff; xfe; x0a]; wire "data: {not json" ++ [xc3; x0a];
                        thought])))).
Proof.
  split; [reflexivity|].
  apply (data_never_raises_an_error 200
           [[xff; xfe; x0a]; wire "data: {not json" ++ [xc3; x0a]; thought]).
  lia.
Defined.

Lemma streamProcure_shape (fetched : fetch_result) :
  exists evs,
    let r := streamProcure fetched in
    match snd r with
    | AwaitingFetch | AwaitingRead => fst r = map onEvent evs
    | ReturnedOnDone | EndOfStream => fst r = map onEvent evs ++ [onDone]
    | Caught =>
        fst r = map onEvent evs \/ exists err, fst r = map onEvent evs ++ [onError err]
    end.
Proof.
  assert (Hcatch : forall e, exists evs : list JSON.value,
            snd (catch e) = Caught /\
            (fst (catch e) = map onEvent evs \/
             exists err, fst (catch e) = map onEvent evs ++ [onError err])).
  { intros e. exists []. unfold catch.
    destruct e as [err|]; [destruct (String.eqb (name err) "AbortError")|];
      cbn; eauto. }
  unfold streamProcure. destruct fetched as [|res|e].
  - now exists [].
  - destruct (ok res), (body res) as [reads|].
    + destruct (read_loop_shape TextDecoder.init [] reads) as (evs & H).
      exists evs. cbv zeta. destruct (read_loop _ _ reads) as [cbs ex].
      cbn [fst snd]. destruct ex; tauto.
    + destruct (Hcatch (Thrown (sse_error res))) as (evs & -> & H). now exists evs.
    + destruct (Hcatch (Thrown (sse_error res))) as (evs & -> & H). now exists evs.
    + destruct (Hcatch (Thrown (sse_error res))) as (evs & -> & H). now exists evs.
  - destruct (Hcatch e) as (evs & -> & H). now exists evs.
Qed.

(** [onDone] and [onError] come last, at most one of them and at most once:
    the callbacks of a run are events, followed by [onDone] when the run
    left on a [done] frame or at the end of the stream, by nothing or one
    [onError] when it left through the [catch], and by nothing while a
    promise is pending. *)
Theorem one_final_callback (fetched : fetch_result) :
  exists evs,
    let r := streamProcure fetched in
    match snd r with
    | AwaitingFetch | AwaitingRead => fst r = map onEvent evs
    | ReturnedOnDone | EndOfStream => fst r = map onEvent evs ++ [onDone]
    | Caught =>
        fst r = map onEvent evs \/ exists err, fst r = map onEvent evs ++ [onError err]
    end.
Proof. apply streamProcure_shape. Qed.

(** A session as the server writes it, any number of event frames and then a
    [done] frame, each followed by a blank line: however it is cut into
    chunks and whatever follows, [streamProcure] hands the events to
    [onEvent] one by one in the order of the frames, then calls [onDone] and
    returns. *)
Theorem frames_are_delivered_in_order
    (st : N) (chunks : list (list byte)) (rest : list read_result)
    (ls : list jsstring) (vs : list JSON.value) (d : jsstring) :
  200 <= st <= 299 ->
  Forall2 event_frame ls vs ->
  Forall is_line ls ->
  done_frame d -> is_line d ->
  decoded (List.concat chunks) = unlines (framed (ls ++ [d])) ->
  streamProcure (response st (map Value chunks ++ rest)) =
    (map onEvent vs ++ [onDone], ReturnedOnDone).
Proof.
  intros Hok Hfr Hls Hd Hdl Htext.
  rewrite streamProcure_concat, (streamProcure_ok _ _ Hok).
  unfold decoded in Htext.
  destruct (TextDecoder.decode TextDecoder.init (List.concat chunks)) as [d' out] eqn:Ed.
  cbn [snd] in Htext.
  assert (Hall : Forall is_line (framed (ls ++ [d]))).
  { apply framed_lines, Forall_app. split; [exact Hls|]. now constructor. }
  assert (Es : JsString.split ([] ++ out) = framed (ls ++ [d]) ++ [[]])
    by (cbn [app]; rewrite Htext; now apply split_unlines).
  rewrite (read_loop_value _ _ _ _ _ _ _ _ Ed Es).
  rewrite framed_app, (for_lines_framed _ _ _ Hfr).
  unfold framed. cbn [map List.concat app for_lines].
  now rewrite (on_line_done _ Hd).
Qed.

Lemma frames_are_delivered_in_order_witness :
  streamProcure (response 200
    (map Value [thought ++ wire "data: {'event': 'act";
                wire "ion', 'data': 'search'}" ++ [x0a; x0a] ++ finished] ++
     [Value summary; Done])) =
    ([onEvent thought_event; onEvent action_event; onDone], ReturnedOnDone).
Proof.
  refine (frames_are_delivered_in_order 200 _ _
            [text "data: {'event': 'thought', 'data': 'Checking budget'}";
             text "data: {'event': 'action', 'data': 'search'}"]
            [thought_event; action_event]
            (text "data: {'event': 'done', 'data': null}") _ _ _ _ _ _).
  - lia.
  - repeat constructor; try discriminate; reflexivity.
  - repeat constructor; unfold is_line, LF; cbn;
      repeat (intros [H|H]; [discriminate H|revert H]); intros [].
  - split; [reflexivity|]. eexists. split; reflexivity.
  - unfold is_line, LF; cbn;
      repeat (intros [H|H]; [discriminate H|revert H]); intros [].
  - reflexivity.
Defined.

(** ** Carriage returns *)

Section Trim.

Import JsString.

Lemma trimStart_white_snoc s c :
  trimStart s = [] -> is_white c = true -> trimStart (s ++ [c]) = [].
Proof.
  induction s as [|x s IH]; cbn [app trimStart]; intros Hs Hc.
  - now rewrite Hc.
  - destruct (is_white x); [now apply IH|discriminate].
Qed.

Lemma trimStart_app s t : trimStart s <> [] -> trimStart (s ++ t) = trimStart s ++ t.
Proof.
  induction s as [|x s IH]; cbn [app trimStart]; intros Hs; [contradiction|].
  destruct (is_white x); [now apply IH|reflexivity].
Qed.

(** White space at the end of a string is trimmed away. *)
Lemma trim_white_snoc s c : is_white c = true -> trim (s ++ [c]) = trim s.
Proof.
  intros Hc. unfold trim, trimEnd.
  destruct (trimStart s) as [|x t] eqn:E.
  - now rewrite trimStart_white_snoc.
  - rewrite trimStart_app by (rewrite E; discriminate).
    rewrite E, rev_app_distr. cbn [rev app trimStart]. now rewrite Hc.
Qed.

Lemma startsWith_snoc l p c :
  ~ In c p -> startsWith (l ++ [c]) p = startsWith l p.
Proof.
  revert l. induction p as [|y p IH]; intros l Hc; [now destruct l|].
  destruct l as [|x l]; cbn [app startsWith].
  - destruct (N.eqb_spec c y) as [->|_]; [|reflexivity].
    exfalso. apply Hc. now left.
  - rewrite IH; [reflexivity|]. intros Hin. apply Hc. now right.
Qed.

Lemma slice_snoc n l c :
  slice n (l ++ [c]) = slice n l ++ [c] \/ slice n (l ++ [c]) = slice n l.
Proof.
  unfold slice. rewrite skipn_app.
  destruct (n - List.length l)%nat; cbn [skipn]; [now left|right].
  destruct n0; cbn; now rewrite app_nil_r.
Qed.

End Trim.

(** A carriage return before the line feed changes nothing for a line. *)
Lemma on_line_CR l : on_line (l ++ [CR]) = on_line l.
Proof.
  unfold on_line.
  rewrite startsWith_snoc
    by (cbn; repeat (intros [H|H]; [discriminate H|revert H]); intros []).
  destruct (slice_snoc 6 l CR) as [-> | ->]; [|reflexivity].
  now rewrite trim_white_snoc.
Qed.

Lemma for_lines_CR ls : for_lines (map (fun l => l ++ [CR]) ls) = for_lines ls.
Proof.
  induction ls as [|l ls IH]; [reflexivity|].
  cbn [map for_lines]. now rewrite on_line_CR, IH.
Qed.

Lemma split_crlf_unlines ls :
  Forall is_line ls ->
  JsString.split (crlf_unlines ls) = map (fun l => l ++ [CR]) ls ++ [[]].
Proof.
  induction 1 as [|l ls Hl _ IH]; [reflexivity|].
  unfold crlf_unlines in *. cbn [map List.concat].
  replace ((l ++ [CR; LF]) ++ List.concat (map (fun l0 => l0 ++ [CR; LF]) ls))
    with ((l ++ [CR]) ++ LF :: List.concat (map (fun l0 => l0 ++ [CR; LF]) ls))
    by (now rewrite <- !app_assoc).
  rewrite split_line, IH; [reflexivity|].
  intros Hin. apply in_app_or in Hin as [Hin|[Hin|[]]]; [now apply Hl|discriminate].
Qed.

(** A stream whose lines end in CR LF makes [streamProcure] do what the same
    lines ending in LF alone make it do, while the stream is open and when
    it closes. *)
Theorem crlf_line_endings
    (st : N) (chunks chunks' : list (list byte)) (ls : list jsstring) :
  200 <= st <= 299 ->
  Forall is_line ls ->
  decoded (List.concat chunks) = crlf_unlines ls ->
  decoded (List.concat chunks') = unlines ls ->
  streamProcure (response st (map Value chunks)) =
    streamProcure (response st (map Value chunks')) /\
  streamProcure (response st (map Value chunks ++ [Done])) =
    streamProcure (response st (map Value chunks' ++ [Done])).
Proof.
  intros Hok Hls Hcr Hlf.
  assert (H : forall rest,
            rest = [] \/ (exists more, rest = Done :: more) ->
            streamProcure (response st (map Value chunks ++ rest)) =
            streamProcure (response st (map Value chunks' ++ rest))).
  { intros rest Hrest.
    rewrite !streamProcure_concat, !(streamProcure_ok _ _ Hok).
    unfold decoded in *.
    destruct (TextDecoder.decode TextDecoder.init (List.concat chunks)) as [d1 o1] eqn:E1.
    destruct (TextDecoder.decode TextDecoder.init (List.concat chunks')) as [d2 o2] eqn:E2.
    cbn [snd] in *.
    assert (Es1 : JsString.split ([] ++ o1) = map (fun l => l ++ [CR]) ls ++ [[]])
      by (cbn [app]; rewrite Hcr; now apply split_crlf_unlines).
    assert (Es2 : JsString.split ([] ++ o2) = ls ++ [[]])
      by (cbn [app]; rewrite Hlf; now apply split_unlines).
    rewrite (read_loop_value _ _ _ _ _ _ _ _ E1 Es1),
            (read_loop_value _ _ _ _ _ _ _ _ E2 Es2), for_lines_CR.
    destruct (for_lines ls) as [cbs [|]]; [reflexivity|].
    f_equal. destruct Hrest as [-> | (more & ->)]; reflexivity. }
  split.
  - rewrite <- (app_nil_r (map Value chunks)), <- (app_nil_r (map Value chunks')).
    apply H. now left.
  - apply H. right. now exists [].
Qed.

Lemma crlf_line_endings_witness :
  streamProcure (response 200
    (map Value [wire "data: {'event': 'thought', 'data': 'Checking budget'}" ++ [x0d];
                [x0a; x0d; x0a]] ++ [Done])) =
  ([onEvent thought_event; onDone], EndOfStream).
Proof.
  refine (proj2 (crlf_line_endings 200 _ [thought]
            [text "data: {'event': 'thought', 'data': 'Checking budget'}"; []]
            _ _ _ _)).
  - lia.
  - repeat constructor; unfold is_line, LF; cbn;
      repeat (intros [H|H]; [discriminate H|revert H]); intros [].
  - reflexivity.
  - reflexivity.
Defined.

(** * The [AgentStream] component over a whole run *)





Lemma streamProcure_deliverable (fetched : fetch_result) :
  Forall deliverable (callbacks (streamProcure fetched)).
Proof.
  assert (Hcatch : forall e, Forall deliverable (fst (catch e))).
  { intros [err|]; cbn; [destruct (String.eqb (name err) "AbortError")|];
      cbn; repeat constructor. }
  assert (Hfor : forall lines, Forall deliverable (fst (for_lines lines))).
  { induction lines as [|l lines IH]; cbn [for_lines]; [constructor|].
    destruct (on_line l) as [|parsed|] eqn:E; [exact IH| |repeat constructor].
    destruct (for_lines lines) as [cbs r]. cbn [fst] in *.
    constructor; [|exact IH]. apply on_line_emit in E. cbn. tauto. }
  assert (Hloop : forall reads d buffer,
            Forall deliverable (fst (read_loop d buffer reads))).
  { induction reads as [|r reads IH]; intros d buffer; [constructor|].
    destruct r as [value| |e]; cbn [read_loop].
    - destruct (TextDecoder.decode d value) as [d1 o1].
      destruct (JsString.pop _) as [last lines].
      specialize (Hfor lines).
      destruct (for_lines lines) as [cbs [|]]; [exact Hfor|].
      unfold after. cbn [fst] in *. apply Forall_app. split; [exact Hfor|apply IH].
    - repeat constructor.
    - apply Hcatch. }
  unfold callbacks, streamProcure.
  destruct fetched as [|res|e]; [constructor| |apply Hcatch].
  destruct (ok res); [|apply Hcatch].
  destruct (body res); [apply Hloop|apply Hcatch].
Qed.

Lemma deliver_all_not_done s cbs :
  Forall deliverable cbs ->
  Forall (fun ev => is_done ev = false) (AgentStream.events s) ->
  Forall (fun ev => is_done ev = false)
         (AgentStream.events (AgentStream.deliver_all s cbs)).
Proof.
  intros Hc. revert s. induction Hc as [|cb cbs Hcb _ IH]; intros s Hs; [exact Hs|].
  cbn [AgentStream.deliver_all fold_left].
  apply (IH (AgentStream.deliver s cb)).
  destruct cb as [ev| |err]; cbn [AgentStream.deliver AgentStream.events].
  - apply Forall_app. split; [exact Hs|]. constructor; [|constructor].
    cbn in Hcb. tauto.
  - exact Hs.
  - apply Forall_app. split; [exact Hs|]. constructor; [reflexivity|constructor].
Qed.

(** No row of the log is a [done] event, whatever the server sends and
    however the run ends, and whether or not [stop] is pressed: the rows are
    the events of the stream other than [done], and error rows. *)
Theorem log_holds_no_done_event (fetched : fetch_result) :
  let ui := AgentStream.deliver_all AgentStream.start
              (callbacks (streamProcure fetched)) in
  Forall (fun ev => is_done ev = false) (AgentStream.events ui) /\
  Forall (fun ev => is_done ev = false) (AgentStream.events (AgentStream.stop ui)).
Proof.
  cbv zeta.
  assert (H : Forall (fun ev => is_done ev = false)
                (AgentStream.events
                   (AgentStream.deliver_all AgentStream.start
                      (callbacks (streamProcure fetched))))).
  { apply deliver_all_not_done; [apply streamProcure_deliverable|constructor]. }
  split; exact H.
Qed.

(** * The render poll, further *)

Section PollOn.

Import DesignViewer.

Lemma last_cons {A} (x : A) l d : last (x :: l) d = last l x.
Proof.
  revert x d. induction l as [|y l IH]; intros x d; [reflexivity|].
  change (last (x :: y :: l) d) with (last (y :: l) d). now rewrite !IH.
Qed.

Lemma poll_nonterminal job0 js :
  terminal job0 = false ->
  Forall (fun j => terminal j = false) js ->
  (poll (started job0) (map Snapshot js) =
     (map job_id (job0 :: js),
      {| polling := true; renderJob := Some (last js job0) |})) /\
  (forall more,
     poll (started job0) (map Snapshot js ++ RequestFailed :: more) =
       (map job_id (job0 :: js),
        {| polling := false; renderJob := Some (last js job0) |})).
Proof.
  intros H0 Hjs. revert job0 H0.
  induction Hjs as [|j js Hj _ IH]; intros job0 H0.
  - split; [|intros more]; cbn [map app poll]; unfold effect;
      cbn [started polling renderJob]; rewrite H0; [reflexivity|].
    destruct more; cbn; reflexivity.
  - destruct (IH j Hj) as [IH1 IH2].
    split; [|intros more]; cbn [map app poll]; unfold effect at 1;
      cbn [started polling renderJob]; rewrite H0;
      change (timer (started job0) (Snapshot j)) with (started j);
      rewrite ?IH1, ?IH2, last_cons; reflexivity.
Qed.

End PollOn.

(** While the server answers [pending] or [processing], the viewer goes on
    polling without end: every reply is followed by one more request, to the
    job id of the snapshot just received, and [polling] stays on. *)
Theorem polling_never_gives_up
    (job0 : DesignViewer.RenderJobResponse)
    (js : list DesignViewer.RenderJobResponse) :
  DesignViewer.terminal job0 = false ->
  Forall (fun j => DesignViewer.terminal j = false) js ->
  DesignViewer.poll (DesignViewer.started job0) (map DesignViewer.Snapshot js) =
    (map DesignViewer.job_id (job0 :: js),
     {| DesignViewer.polling := true;
        DesignViewer.renderJob := Some (last js job0) |}).
Proof. intros H0 Hjs. apply (poll_nonterminal job0 js H0 Hjs). Qed.

Lemma polling_never_gives_up_witness :
  let job s := {| DesignViewer.job_id := "job-1"%string; DesignViewer.status := s |} in
  DesignViewer.poll (DesignViewer.started (job DesignViewer.pending))
    (map DesignViewer.Snapshot
       [job DesignViewer.pending; job DesignViewer.processing;
        job DesignViewer.processing]) =
  (["job-1"; "job-1"; "job-1"; "job-1"]%string,
   {| DesignViewer.polling := true;
      DesignViewer.renderJob := Some (job DesignViewer.processing) |}).
Proof.
  intros job.
  apply (polling_never_gives_up (job DesignViewer.pending)
           [job DesignViewer.pending; job DesignViewer.processing;
            job DesignViewer.processing]).
  - reflexivity.
  - repeat constructor.
Defined.

(** A status request that fails ends the polling for good and leaves the
    last snapshot, still [pending] or [processing], in place: no request
    follows, whatever the server would have answered. *)
Theorem failed_status_request_ends_polling
    (job0 : DesignViewer.RenderJobResponse)
    (js : list DesignViewer.RenderJobResponse)
    (more : list DesignViewer.reply) :
  DesignViewer.terminal job0 = false ->
  Forall (fun j => DesignViewer.terminal j = false) js ->
  DesignViewer.poll (DesignViewer.started job0)
    (map DesignViewer.Snapshot js ++ DesignViewer.RequestFailed :: more) =
    (map DesignViewer.job_id (job0 :: js),
     {| DesignViewer.polling := false;
        DesignViewer.renderJob := Some (last js job0) |}).
Proof. intros H0 Hjs. apply (poll_nonterminal job0 js H0 Hjs). Qed.

Lemma failed_status_request_ends_polling_witness :
  let job s := {| DesignViewer.job_id := "job-1"%string; DesignViewer.status := s |} in
  DesignViewer.poll (DesignViewer.started (job DesignViewer.pending))
    (map DesignViewer.Snapshot [job DesignViewer.processing] ++
     DesignViewer.RequestFailed :: [DesignViewer.Snapshot (job DesignViewer.done)]) =
  (["job-1"; "job-1"]%string,
   {| DesignViewer.polling := false;
      DesignViewer.renderJob := Some (job DesignViewer.processing) |}).
Proof.
  intros job.
  apply (failed_status_request_ends_polling (job DesignViewer.pending)
           [job DesignViewer.processing]
           [DesignViewer.Snapshot (job DesignViewer.done)]).
  - reflexivity.
  - repeat constructor.
Defined.

(** * [ARPage] *)

(** The page shows the viewer exactly when the route gave a design id that is
    not empty and the session request resolved, with the session it resolved
    to; without a design id no request is made and the spinner stays; a
    rejection shows the error's message, or "Session not found" when that
    message is empty. *)
Theorem ar_page_shows (A : Type) (designId : option string) (o : ARPage.outcome A) :
  (forall sess,
     ARPage.render (ARPage.effect designId o) = ARPage.Viewer sess <->
     (exists id, designId = Some id /\ truthy id = true) /\ o = ARPage.Resolved sess) /\
  (ARPage.render (ARPage.effect designId o) = ARPage.Spinner <->
   designId = None \/ designId = Some ""%string) /\
  (forall a id e,
     ARPage.render (ARPage.effect (ARSessionResponse := A) (Some (String a id)) (ARPage.Rejected e)) =
     ARPage.ErrorMessage
       (if truthy (message_or e "Failed to load AR session")
        then message_or e "Failed to load AR session"
        else "Session not found"%string)).
Proof.
  split; [|split].
  - intros sess. split.
    + destruct designId as [[|a id]|]; cbn; try discriminate.
      destruct o as [s|e]; cbn.
      * intros [= ->]. split; [|reflexivity]. eexists. split; reflexivity.
      * destruct (truthy (message_or e _)); discriminate.
    + intros [(id & -> & Hid) ->]. destruct id; [discriminate|reflexivity].
  - split.
    + destruct designId as [[|a id]|]; cbn; auto.
      destruct o as [s|e]; cbn; [discriminate|].
      destruct (truthy (message_or e _)); discriminate.
    + intros [-> | ->]; reflexivity.
  - intros a id e. cbn.
    destruct (truthy (message_or e "Failed to load AR session")); reflexivity.
Qed.


(** * [Home] *)

Section HomeInvariants.

Import Home.

Lemma step_keeps p ev : settled_or_generating p -> settled_or_generating (step p ev).
Proof.
  intros (Hd & Hp & Hg). destruct p as [u pend].
  cbn [ui pending] in *. unfold settled_or_generating.
  destruct ev as [result|st| |o]; cbn [step ui pending].
  - cbn. repeat split; try discriminate. exact Hg.
  - cbn. auto.
  - destruct (analysis u) as [a|] eqn:Ea.
    2: { cbn [ui pending]. rewrite Ea. auto. }
    destruct (generating u) eqn:Eg.
    { cbn [ui pending]. rewrite Ea, Eg. auto. }
    unfold handleGenerate. rewrite Ea.
    cbn [ui pending analysis design generating].
    split; [exact Hd|]. split; [discriminate|].
    destruct Hg as [[Hg _]|[_ ->]]; [discriminate|].
    left. split; [reflexivity|]. eexists. reflexivity.
  - destruct pend as [|r rest]; [cbn [ui pending]; auto|].
    assert (Ha : analysis u <> None) by (apply Hp; discriminate).
    destruct Hg as [[Hg (r0 & [= -> ->])]|[_ Hg]]; [|discriminate].
    destruct o as [d|e]; cbn; repeat split; auto; try contradiction.
Qed.

Lemma run_keeps evs p :
  settled_or_generating p -> settled_or_generating (fold_left step evs p).
Proof.
  revert p. induction evs as [|ev evs IH]; intros p Hp; [exact Hp|].
  cbn [fold_left]. apply IH, step_keeps, Hp.
Qed.

Lemma run_ok evs : settled_or_generating (run evs).
Proof.
  apply run_keeps. unfold settled_or_generating. cbn.
  repeat split; try contradiction. now right.
Qed.

End HomeInvariants.

(** Whatever the user and the two requests do, in whatever order, the viewer
    is only ever shown together with an analyzed room, and gets that room's
    width and depth: the fallbacks 4 and 6 of lines 95-96 are never used. *)
Theorem viewer_gets_the_analyzed_room
    (evs : list Home.event) (d : Home.DesignGenerateResponse) (w dp : number) :
  Home.viewer_props (Home.ui (Home.run evs)) = Some (d, w, dp) ->
  exists a,
    Home.analysis (Home.ui (Home.run evs)) = Some a /\
    w = Home.width a /\ dp = Home.depth a.
Proof.
  destruct (run_ok evs) as (Hd & _). unfold Home.viewer_props.
  destruct (Home.design (Home.ui (Home.run evs))) as [d'|]; [|discriminate].
  destruct (Home.analysis (Home.ui (Home.run evs))) as [a|].
  - intros [= <- <- <-]. now exists a.
  - exfalso. now apply Hd.
Qed.

Lemma viewer_gets_the_analyzed_room_witness :
  let room := {| Home.room_id := "room-1"; Home.width := lit "3.5";
                 Home.depth := lit "5" |} in
  let d := {| Home.design_id := "design-1"; Home.style := "modern" |} in
  exists a,
    Home.analysis (Home.ui (Home.run
      [Home.Analyzed room; Home.Click; Home.Settled (Home.Resolved d)])) = Some a /\
    lit "3.5" = Home.width a /\ lit "5" = Home.depth a.
Proof.
  intros room d.
  apply (viewer_gets_the_analyzed_room
           [Home.Analyzed room; Home.Click; Home.Settled (Home.Resolved d)]
           d (lit "3.5") (lit "5")).
  reflexivity.
Defined.

(** At most one call of [generateDesign] is pending at any time, and one is
    pending exactly while [generating] is set: the page is never left with
    the button disabled and nothing to wait for, nor with a second call
    under way. *)
Theorem one_generation_at_a_time (evs : list Home.event) :
  (List.length (Home.pending (Home.run evs)) <= 1)%nat /\
  (Home.generating (Home.ui (Home.run evs)) = true <->
   Home.pending (Home.run evs) <> []).
Proof.
  destruct (run_ok evs) as (_ & _ & [[Hg (r & ->)]|[Hg ->]]); rewrite Hg; cbn.
  - split; [lia|]. split; [discriminate|reflexivity].
  - split; [lia|]. split; [discriminate|contradiction].
Qed.

(** * [ThreeScene] *)

Lemma box_color_truthy color palette idx :
  truthy (ThreeScene.box_color color palette idx) = true.
Proof.
  unfold ThreeScene.box_color. destruct (truthy color) eqn:E; [exact E|].
  destruct (ThreeScene.palette_entry palette idx) as [c|]; [|reflexivity].
  destruct (truthy c) eqn:Ec; [exact Ec|reflexivity].
Qed.

(** Every box of the scene gets a colour that is not empty, one for each
    piece: the piece's own where it has one, else an entry of the palette or
    the default, also when the palette is empty or has empty entries. *)
Theorem every_box_has_a_color
    (colors palette : list string) (idx : nat) :
  List.length (ThreeScene.box_colors colors palette idx) = List.length colors /\
  Forall (fun c => truthy c = true) (ThreeScene.box_colors colors palette idx) /\
  Forall2 (fun color c =>
             (truthy color = true -> c = color) /\
             (truthy color = false ->
              c = ThreeScene.default_color \/ In c palette))
          colors (ThreeScene.box_colors colors palette idx).
Proof.
  revert idx. induction colors as [|color colors IH]; intros idx.
  - repeat split; constructor.
  - destruct (IH (S idx)) as (Hl & Hf & H2). cbn [ThreeScene.box_colors].
    split; [cbn; now rewrite Hl|]. split.
    + constructor; [apply box_color_truthy|exact Hf].
    + constructor; [|exact H2]. unfold ThreeScene.box_color. split.
      * now intros ->.
      * intros ->. unfold ThreeScene.palette_entry.
        destruct (List.length palette) eqn:El; [now left|].
        destruct (nth_error palette (idx mod S n)) as [c|] eqn:En; [|now left].
        destruct (truthy c); [|now left].
        right. eapply nth_error_In, En.
Qed.

(** * Request bodies *)

Section Quote.

Import JSON Stringify.

Lemma hex_hex_digit d : d < 16 -> hex (hex_digit d) = Some d.
Proof.
  intros Hd. unfold hex, hex_digit.
  destruct (N.ltb_spec d 10).
  - destruct (N.leb_spec 48 (48 + d)); [|lia].
    destruct (N.leb_spec (48 + d) 57); [|lia]. cbn [andb]. f_equal. lia.
  - destruct (N.leb_spec (87 + d) 57); [lia|]. rewrite andb_false_r.
    destruct (N.leb_spec (87 + d) 70); [lia|]. rewrite andb_false_r.
    destruct (N.leb_spec 97 (87 + d)); [|lia].
    destruct (N.leb_spec (87 + d) 102); [|lia]. cbn [andb]. f_equal. lia.
Qed.

Lemma hex4_unicode_escape c :
  c < 65536 ->
  hex4 (hex_digit (c / 4096 mod 16)) (hex_digit (c / 256 mod 16))
       (hex_digit (c / 16 mod 16)) (hex_digit (c mod 16)) = Some c.
Proof.
  intros Hc. unfold hex4.
  rewrite !hex_hex_digit by (apply N.mod_lt; discriminate).
  f_equal.
  pose proof (N.div_mod c 16 ltac:(discriminate)) as E0.
  pose proof (N.div_mod (c / 16) 16 ltac:(discriminate)) as E1.
  pose proof (N.div_mod (c / 16 / 16) 16 ltac:(discriminate)) as E2.
  pose proof (N.mod_lt c 16 ltac:(discriminate)).
  pose proof (N.mod_lt (c / 16) 16 ltac:(discriminate)).
  pose proof (N.mod_lt (c / 16 / 16) 16 ltac:(discriminate)).
  assert (H3 : c / 16 / 16 / 16 < 16).
  { rewrite !N.Div0.div_div. apply N.Div0.div_lt_upper_bound. cbn. lia. }
  rewrite !N.Div0.div_div in *.
  change (16 * 16) with 256 in *. change (256 * 16) with 4096 in *.
  rewrite (N.mod_small (c / 4096) 16) by exact H3.
  lia.
Qed.

(** An escaped or copied code unit is read back as itself. *)
Lemma chars_quote_unit c k :
  chars (quote_unit c ++ k) = cons_to c (chars k).
Proof.
  unfold quote_unit.
  destruct (N.eqb_spec c 8) as [->|N8]; [reflexivity|].
  destruct (N.eqb_spec c 9) as [->|N9]; [reflexivity|].
  destruct (N.eqb_spec c 10) as [->|N10]; [reflexivity|].
  destruct (N.eqb_spec c 12) as [->|N12]; [reflexivity|].
  destruct (N.eqb_spec c 13) as [->|N13]; [reflexivity|].
  destruct (N.eqb_spec c 34) as [->|N34]; [reflexivity|].
  destruct (N.eqb_spec c 92) as [->|N92]; [reflexivity|].
  destruct ((c <? 32) || is_high c || is_low c) eqn:E.
  - assert (Hc : c < 65536).
    { unfold is_high, is_low in E.
      apply orb_prop in E as [E|E]; [apply orb_prop in E as [E|E]|].
      - apply N.ltb_lt in E. lia.
      - apply andb_prop in E as [_ E]. apply N.leb_le in E. lia.
      - apply andb_prop in E as [_ E]. apply N.leb_le in E. lia. }
    unfold unicode_escape. cbn [app chars].
    change (92 =? 34) with false. change (92 =? 92) with true.
    change (117 =? 117) with true. cbv iota.
    now rewrite hex4_unicode_escape.
  - apply orb_false_elim in E as [E _]. apply orb_false_elim in E as [E _].
    cbn [app chars].
    destruct (N.eqb_spec c 34); [contradiction|].
    destruct (N.eqb_spec c 92); [contradiction|]. now rewrite E.
Qed.

(** The two halves of a surrogate pair are copied and read back. *)
Lemma chars_pair c d k :
  is_high c = true -> is_low d = true ->
  chars (c :: d :: k) = cons_to c (cons_to d (chars k)).
Proof.
  unfold is_high, is_low. intros Hc Hd.
  apply andb_prop in Hc as [Hc _]. apply andb_prop in Hd as [Hd _].
  apply N.leb_le in Hc, Hd.
  cbn [chars].
  destruct (N.eqb_spec c 34); [lia|]. destruct (N.eqb_spec c 92); [lia|].
  destruct (N.ltb_spec c 32); [lia|].
  destruct (N.eqb_spec d 34); [lia|]. destruct (N.eqb_spec d 92); [lia|].
  destruct (N.ltb_spec d 32); [lia|]. reflexivity.
Qed.

(** What [JSON.stringify] writes between the quotes, [JSON.parse] reads back
    as the string it was. *)
Lemma quote_chars_cons c d s :
  quote_chars (c :: d :: s) =
  if is_high c && is_low d then c :: d :: quote_chars s
  else quote_unit c ++ quote_chars (d :: s).
Proof. reflexivity. Qed.

Lemma chars_quote_chars s k :
  chars (quote_chars s ++ 34 :: k) = Some (s, k) /\
  forall c, chars (quote_chars (c :: s) ++ 34 :: k) = Some (c :: s, k).
Proof.
  induction s as [|d s [IH1 IH2]].
  - split; [reflexivity|]. intros c. cbn [quote_chars].
    rewrite chars_quote_unit. reflexivity.
  - split; [apply IH2|]. intros c. rewrite quote_chars_cons.
    destruct (is_high c && is_low d) eqn:E.
    + apply andb_prop in E as [Ec Ed].
      cbn [app]. rewrite (chars_pair _ _ _ Ec Ed), IH1. reflexivity.
    + rewrite <- app_assoc, chars_quote_unit, IH2. reflexivity.
Qed.

Lemma parse_value_quote fuel s k :
  parse_value (S fuel) (quote s ++ k) = Some (JString s, k).
Proof.
  unfold quote. cbn [app parse_value].
  change (34 =? 123) with false. change (34 =? 91) with false.
  change (34 =? 34) with true. cbv iota.
  rewrite <- app_assoc. cbn [app].
  pose proof (proj1 (chars_quote_chars s k)) as E.
  unfold jsstring, codeunit in *. now rewrite E.
Qed.

Lemma quote_cons s k : quote s ++ k = 34 :: quote_chars s ++ 34 :: k.
Proof. unfold quote. cbn [app]. now rewrite <- app_assoc. Qed.

(** A member with a string value, the last of its object. *)
Lemma members_last_string fuel key s k :
  members (S (S fuel)) (quote key ++ 58 :: quote s ++ 125 :: k) =
  Some ([(key, JString s)], k).
Proof.
  rewrite members_S, quote_cons. cbn [ws N.eqb Pos.eqb orb].
  change (34 =? 34) with true. cbv iota.
  pose proof (proj1 (chars_quote_chars key (58 :: quote s ++ 125 :: k))) as E.
  unfold jsstring, codeunit in *. rewrite E. clear E.
  cbn [ws N.eqb Pos.eqb orb]. change (58 =? 58) with true. cbv iota.
  rewrite quote_cons. cbn [ws N.eqb Pos.eqb orb]. rewrite <- quote_cons.
  pose proof (parse_value_quote fuel s (125 :: k)) as E.
  unfold jsstring, codeunit in *. rewrite E. clear E.
  reflexivity.
Qed.

(** A member with a string value, followed by further members. *)
Lemma members_more_string fuel key s rest ms k :
  members (S fuel) rest = Some (ms, k) ->
  members (S (S fuel)) (quote key ++ 58 :: quote s ++ 44 :: rest) =
  Some ((key, JString s) :: ms, k).
Proof.
  intros Hrest.
  rewrite members_S, quote_cons. cbn [ws N.eqb Pos.eqb orb].
  change (34 =? 34) with true. cbv iota.
  pose proof (proj1 (chars_quote_chars key (58 :: quote s ++ 44 :: rest))) as E.
  unfold jsstring, codeunit in *. rewrite E. clear E.
  cbn [ws N.eqb Pos.eqb orb]. change (58 =? 58) with true. cbv iota.
  rewrite quote_cons. cbn [ws N.eqb Pos.eqb orb]. rewrite <- quote_cons.
  pose proof (parse_value_quote fuel s (44 :: rest)) as E.
  unfold jsstring, codeunit in *. rewrite E. clear E.
  cbn [ws N.eqb Pos.eqb orb]. change (44 =? 44) with true. cbv iota.
  now rewrite Hrest.
Qed.

(** A member whose value is the empty object, the last of its object. *)
Lemma members_last_empty fuel key k :
  members (S (S fuel)) (quote key ++ 58 :: 123 :: 125 :: 125 :: k) =
  Some ([(key, JObject [])], k).
Proof.
  rewrite members_S, quote_cons. cbn [ws N.eqb Pos.eqb orb].
  change (34 =? 34) with true. cbv iota.
  pose proof (proj1 (chars_quote_chars key (58 :: 123 :: 125 :: 125 :: k))) as E.
  unfold jsstring, codeunit in *. rewrite E. clear E.
  reflexivity.
Qed.

(** An object whose members are read by [members]. *)
Lemma parse_object fuel key text ms k :
  members fuel (quote key ++ text) = Some (ms, k) ->
  parse_value (S fuel) (123 :: quote key ++ text) = Some (JObject ms, k).
Proof.
  intros H. cbn [parse_value]. change (123 =? 123) with true. cbv iota.
  rewrite quote_cons in *. cbn [ws N.eqb Pos.eqb orb].
  change (34 =? 125) with false. cbv iota.
  unfold jsstring, codeunit in *. now rewrite H.
Qed.

(** A text that starts with an opening brace and is read as a value with
    some fuel within what [parse] gives is parsed as that value. *)
Lemma parse_object_text (n : nat) text v :
  (forall fuel, parse_value (n + fuel) (123 :: text) = Some (v, [])) ->
  (n <= S (2 * S (List.length text)))%nat ->
  JSON.parse (123 :: text) = Some v.
Proof.
  intros H Hn. unfold JSON.parse.
  change (ws (123 :: text)) with (123 :: text).
  cbn [List.length].
  specialize (H (S (2 * S (List.length text)) - n)%nat).
  assert (E : (n + (S (2 * S (List.length text)) - n) =
               S (2 * S (List.length text)))%nat) by lia.
  rewrite E in H. unfold jsstring, codeunit in *. now rewrite H.
Qed.

End Quote.

(** The body [submitRender] posts is JSON that reads back as an object with
    the one property [design_id], holding the design id as given, whatever
    code units the id is made of: quotes, backslashes, control characters
    and lone surrogates included. *)
Theorem submitRender_body_reads_back (designId : jsstring) :
  JSON.parse (Stringify.submitRender_body designId) =
  Some (JObject [(lit "design_id", JString designId)]).
Proof.
  unfold Stringify.submitRender_body.
  change (lit "{") with [123]. change (lit ":") with [58]. change (lit "}") with [125].
  cbn [app].
  apply (parse_object_text 3); [|cbn [List.length]; lia].
  intros fuel. apply parse_object, members_last_string.
Qed.

(** The body [generateDesign] posts for [Home] is JSON that reads back as
    an object with the room id and the style as given, whatever code units
    they are made of, and empty preferences. *)
Theorem generateDesign_body_reads_back (roomId style : jsstring) :
  JSON.parse (Stringify.generateDesign_body roomId style) =
  Some (JObject [(lit "room_id", JString roomId); (lit "style", JString style);
                 (lit "preferences", JObject [])]).
Proof.
  unfold Stringify.generateDesign_body.
  change (lit "{") with [123]. change (lit ":") with [58]. change (lit "}") with [125].
  change (lit ",") with [44]. change (lit "{}") with [123; 125].
  cbn [app].
  apply (parse_object_text 5); [|rewrite quote_cons; cbn [List.length]; lia].
  intros fuel. cbn [Nat.add].
  apply parse_object, members_more_string, members_more_string, members_last_empty.
Qed.
